(** * script-copilot: the test runner and the LLM client

    A shallow embedding of [testRunner.ts] (running the test command,
    locating and reading the TRX artifact, reconciling it with the exit
    code) and of [llm/client.ts] (the semaphore, the retry loop and the
    timeout of one request), with the properties of the design document
    stated over it. *)

From Stdlib Require Import ZArith NArith Ascii String List Bool Lia.
From stdpp Require Import base tactics option list strings pretty.

Local Set Warnings "-register-all".

Local Open Scope Z_scope.

(** ** JavaScript strings and numbers

    A string is a sequence of code units; the embedding covers the code
    units below 256, one [ascii] each. *)
Module Js.

Definition code (c : ascii) : N := N_of_ascii c.

Definition is_char (x c : ascii) : bool := (code x =? code c)%N.

Definition backslash : ascii := "\"%char.
Definition dquote : ascii := "034"%char.
Definition squote : ascii := "'"%char.

(** [\s] of a regular expression: TAB, LF, VT, FF, CR, SP and NBSP. *)
Definition is_space (c : ascii) : bool :=
  let n := code c in
  ((9 <=? n) && (n <=? 13) || (n =? 32) || (n =? 160))%N.

(** [.] of a regular expression (no [s] flag): anything but LF and CR. *)
Definition is_dot (c : ascii) : bool :=
  let n := code c in negb ((n =? 10) || (n =? 13))%N.

Definition is_digit (c : ascii) : bool :=
  let n := code c in ((48 <=? n) && (n <=? 57))%N.

Definition lower_char (c : ascii) : ascii :=
  let n := code c in
  if ((65 <=? n) && (n <=? 90) ||
      (192 <=? n) && (n <=? 222) && negb (n =? 215))%N
  then ascii_of_N (n + 32) else c.

(** [String.prototype.toLowerCase]. *)
Fixpoint toLowerCase (s : string) : string :=
  match s with
  | EmptyString => EmptyString
  | String c r => String (lower_char c) (toLowerCase r)
  end.

Fixpoint startsWith (p s : string) : bool :=
  match p, s with
  | EmptyString, _ => true
  | String a p', String b s' => is_char a b && startsWith p' s'
  | String _ _, EmptyString => false
  end.

Fixpoint drop (n : nat) (s : string) : string :=
  match n, s with
  | O, _ => s
  | S k, String _ r => drop k r
  | S _, EmptyString => EmptyString
  end.

(** [String.prototype.endsWith]. *)
Definition endsWith (suffix s : string) : bool :=
  let n := String.length s in
  let k := String.length suffix in
  (k <=? n)%nat && String.eqb (drop (n - k) s) suffix.

(** [s.slice(0, n)]. *)
Fixpoint slice0 (n : nat) (s : string) : string :=
  match n, s with
  | S k, String c r => String c (slice0 k r)
  | _, _ => EmptyString
  end.

(** The longest prefix whose characters satisfy [p], and what follows:
    a greedy [[class]*]. *)
Fixpoint span (p : ascii -> bool) (s : string) : string * string :=
  match s with
  | String c r =>
      if p c then let '(a, b) := span p r in (String c a, b) else (EmptyString, s)
  | EmptyString => (EmptyString, EmptyString)
  end.

(** Whether the character [c] occurs in [s]. *)
Fixpoint occurs (c : ascii) (s : string) : bool :=
  match s with
  | EmptyString => false
  | String x r => is_char x c || occurs c r
  end.

(** A JavaScript number as the test runner meets it: an integer or NaN. *)
Inductive number : Type :=
| NaN
| Num (z : Z).

Definition add (a b : number) : number :=
  match a, b with
  | Num x, Num y => Num (x + y)
  | _, _ => NaN
  end.

Definition mul (a b : number) : number :=
  match a, b with
  | Num x, Num y => Num (x * y)
  | _, _ => NaN
  end.

(** Truthiness of a number: [0] and [NaN] are falsy. *)
Definition truthy (a : number) : bool :=
  match a with
  | NaN => false
  | Num z => negb (z =? 0)
  end.

Fixpoint digits_value (acc : Z) (s : string) : Z :=
  match s with
  | EmptyString => acc
  | String c r => digits_value (10 * acc + (Z.of_N (code c) - 48)) r
  end.

Definition all_digits (s : string) : bool :=
  String.eqb (snd (span is_digit s)) EmptyString.

(** [Number(s)] on the strings the runner converts: the empty string is
    [0], a run of decimal digits is its value, and a string holding a
    character that no numeric literal may hold (a backslash, a colon) is
    [NaN].  Signs, fractions, exponents, radix prefixes and padding white
    space are not part of this model. *)
Definition Number (s : string) : number :=
  if all_digits s then Num (digits_value 0 s) else NaN.

(** An [Error] object: its [name] and its [message]. *)
Record Error : Type := mkError {
  err_name : string;
  err_message : string
}.

(** [new Error(message)]. *)
Definition new_Error (msg : string) : Error := mkError "Error" msg.

(** The error of reading a property of [null] or [undefined]. *)
Inductive Nullish : Type :=
| js_null
| js_undefined.

Definition TypeError_reading (v : Nullish) (property : string) : Error :=
  mkError "TypeError"
    ("Cannot read properties of "
       +:+ match v with js_null => "null" | js_undefined => "undefined" end
       +:+ " (reading '" +:+ property +:+ "')").

(** [setTimeout]: Node sets a delay below 1 or above [TIMEOUT_MAX] to
    1. *)
Definition TIMEOUT_MAX : Z := 2147483647.

Definition timer_delay (ms : Z) : Z :=
  if (ms <? 1) || (TIMEOUT_MAX <? ms) then 1 else ms.

End Js.

(** ** The test runner: data model *)
Module TestRunner.

Import Js.

Record TestFailure : Type := mkTestFailure {
  testName : string;
  message : option string;
  stackTrace : option string
}.

Record TestSummary : Type := mkTestSummary {
  passed : Z;
  failed : Z;
  skipped : Z;
  total : Z;
  durationMs : Z
}.

Record TestRunResult : Type := mkTestRunResult {
  success : bool;
  failures : list TestFailure;
  summary : TestSummary;
  resultsFile : option string
}.

(** The object that the XML parser builds for one [UnitTestResult]
    element: its attributes (prefixed [@_] in the source) and the nested
    [Output.ErrorInfo]. An absent key is [None]. *)
Record ErrorInfo : Type := mkErrorInfo {
  Message : option string;
  StackTrace : option string
}.

Record Output : Type := mkOutput {
  errorInfo : option ErrorInfo
}.

Record UnitTestResult : Type := mkUnitTestResult {
  attr_outcome : option string;
  attr_testName : option string;
  attr_duration : option string;
  output : option Output
}.

(** What [json.TestRun?.Results?.UnitTestResult] evaluates to: nothing
    (or any falsy value), one object, or an array of objects. *)
Inductive UnitTestResults : Type :=
| Missing
| Single (r : UnitTestResult)
| Many (rs : list UnitTestResult).

(** [toArray]. *)
Definition toArray (value : UnitTestResults) : list UnitTestResult :=
  match value with
  | Missing => []
  | Many rs => rs
  | Single r => [r]
  end.

(** *** parseDuration

    The pattern of the source is
    [(?<h>\\d+):(?<m>\\d+):(?<s>\\d+)(?:\\.(?<ms>\\d+))?]
    inside a regular expression literal, where each doubled backslash is
    an escaped backslash: a group is one backslash followed by one or
    more letters [d], and the optional tail is a backslash, any
    character, and such a group again. *)

(** One [\\d+]: a backslash, then the longest run of [d], at least one. *)
Definition backslash_ds (s : string) : option (string * string) :=
  match s with
  | String c r =>
      if is_char c backslash then
        let '(ds, rest) := span (fun x => is_char x "d"%char) r in
        match ds with
        | EmptyString => None
        | _ => Some (String c ds, rest)
        end
      else None
  | EmptyString => None
  end.

Definition expect (x : ascii) (s : string) : option string :=
  match s with
  | String c r => if is_char c x then Some r else None
  | EmptyString => None
  end.

(** The optional [(?:\\.(?<ms>\\d+))?]: the [ms] group when the tail
    matches, undefined otherwise. *)
Definition fraction_tail (s : string) : option string :=
  match s with
  | String b (String c r) =>
      if is_char b backslash && is_dot c then fst <$> backslash_ds r else None
  | _ => None
  end.

Record DurationGroups : Type := mkDurationGroups {
  group_h : string;
  group_m : string;
  group_s : string;
  group_ms : option string
}.

(** The pattern matched at the start of [s]. *)
Definition duration_match_here (s : string) : option DurationGroups :=
  '(h, s1) ← backslash_ds s;
  s2 ← expect ":"%char s1;
  '(m, s3) ← backslash_ds s2;
  s4 ← expect ":"%char s3;
  '(sec, s5) ← backslash_ds s4;
  Some (mkDurationGroups h m sec (fraction_tail s5)).

(** [duration.match(...)]: the leftmost position where the pattern
    matches. *)
Fixpoint duration_match (s : string) : option DurationGroups :=
  match duration_match_here s with
  | Some g => Some g
  | None =>
      match s with
      | String _ r => duration_match r
      | EmptyString => None
      end
  end.

Definition parseDuration (duration : string) : number :=
  match duration_match duration with
  | None => Num 0
  | Some g =>
      let hours := Number (group_h g) in
      let minutes := Number (group_m g) in
      let seconds := Number (group_s g) in
      let milliseconds := Number (slice0 3 (default "0" (group_ms g))) in
      add (add (add (mul hours (Num 3600000)) (mul minutes (Num 60000)))
               (mul seconds (Num 1000)))
          milliseconds
  end.

(** *** parseTrx *)

(** The three branches of the loop body on the lower-cased outcome. *)
Inductive Outcome : Type :=
| OutcomePassed
| OutcomeSkipped
| OutcomeFailed.

Definition classify (outcome : string) : Outcome :=
  if String.eqb outcome "passed" then OutcomePassed
  else if String.eqb outcome "notexecuted" || String.eqb outcome "skipped"
       then OutcomeSkipped
  else OutcomeFailed.

Definition outcome_of (result : UnitTestResult) : string :=
  toLowerCase (default "" (attr_outcome result)).

Definition failure_of (result : UnitTestResult) : TestFailure :=
  {| testName := default "Unknown test" (attr_testName result);
     message := o ← output result; e ← errorInfo o; Message e;
     stackTrace := o ← output result; e ← errorInfo o; StackTrace e |}.

(** The variables that the loop of [parseTrx] updates. *)
Record Acc : Type := mkAcc {
  acc_failures : list TestFailure;
  acc_passed : Z;
  acc_skipped : Z;
  acc_durationMs : Z
}.

Definition acc0 : Acc := mkAcc [] 0 0 0.

(** One iteration of [for (const result of results)]. *)
Definition visit (a : Acc) (result : UnitTestResult) : Acc :=
  let duration := parseDuration (default "" (attr_duration result)) in
  let d :=
    if truthy duration
    then match duration with Num z => acc_durationMs a + z | NaN => acc_durationMs a end
    else acc_durationMs a in
  match classify (outcome_of result) with
  | OutcomePassed =>
      mkAcc (acc_failures a) (acc_passed a + 1) (acc_skipped a) d
  | OutcomeSkipped =>
      mkAcc (acc_failures a) (acc_passed a) (acc_skipped a + 1) d
  | OutcomeFailed =>
      mkAcc (acc_failures a ++ [failure_of result]) (acc_passed a) (acc_skipped a) d
  end.

(** [parseTrx], from the value found at [TestRun.Results.UnitTestResult]
    of the parsed document on. *)
Definition parseTrx_of (trxPath : string) (value : UnitTestResults) : TestRunResult :=
  let results := toArray value in
  let a := fold_left visit results acc0 in
  let failures := acc_failures a in
  {| success := (length failures =? 0)%nat;
     failures := failures;
     summary := {| passed := acc_passed a;
                   failed := Z.of_nat (length failures);
                   skipped := acc_skipped a;
                   total := Z.of_nat (length results);
                   durationMs := acc_durationMs a |};
     resultsFile := Some trxPath |}.

(** *** parseResultsDirectory

    The pattern of the source is the flag [--results-directory], then
    [\s+], then a capture group of three alternatives: a double-quoted
    non-empty text, a single-quoted non-empty text, or [[^\\s]+].  In a
    regular expression literal the class [[^\\s]] excludes the
    backslash and the letter [s], and nothing else. *)

Definition flag : string := "--results-directory".

(** [q[^q]+q] for a quote character [q]: the text matched, quotes
    included. *)
Definition quoted (q : ascii) (s : string) : option string :=
  match s with
  | String c r =>
      if is_char c q then
        let '(inner, rest) := span (fun x => negb (is_char x q)) r in
        match inner, rest with
        | String _ _, String c' _ =>
            if is_char c' q then Some (String c (inner +:+ String c' EmptyString))
            else None
        | _, _ => None
        end
      else None
  | EmptyString => None
  end.

(** [[^\\s]+]: the longest run of characters that are neither a
    backslash nor an [s], at least one. *)
Definition bare (s : string) : option string :=
  match fst (span (fun x => negb (is_char x backslash || is_char x "s"%char)) s) with
  | EmptyString => None
  | run => Some run
  end.

(** The capture group: the alternatives in their order. *)
Definition group1 (s : string) : option string :=
  match quoted dquote s with
  | Some g => Some g
  | None =>
      match quoted squote s with
      | Some g => Some g
      | None => bare s
      end
  end.

(** [\s+] followed by the group: the greedy quantifier first takes all
    [k] white-space characters and gives them back one at a time while
    the group fails. *)
Fixpoint spaces_then_group (k : nat) (s : string) : option string :=
  match k with
  | O => None
  | S k' =>
      match group1 (drop k s) with
      | Some g => Some g
      | None => spaces_then_group k' s
      end
  end.

Definition results_match_here (s : string) : option string :=
  if startsWith flag s then
    let t := drop (String.length flag) s in
    spaces_then_group (String.length (fst (span is_space t))) t
  else None.

(** [command.match(...)]: the group at the leftmost match. *)
Fixpoint results_match (s : string) : option string :=
  match results_match_here s with
  | Some g => Some g
  | None =>
      match s with
      | String _ r => results_match r
      | EmptyString => None
      end
  end.

Definition is_quote (c : ascii) : bool := is_char c squote || is_char c dquote.

Definition strip_leading_quote (s : string) : string :=
  match s with
  | String c r => if is_quote c then r else s
  | EmptyString => s
  end.

Fixpoint strip_trailing_quote (s : string) : string :=
  match s with
  | EmptyString => EmptyString
  | String c EmptyString => if is_quote c then EmptyString else s
  | String c r => String c (strip_trailing_quote r)
  end.

(** [raw.replace(...)] with a global pattern of two alternatives: a
    quote character at the start, or a quote character at the end. *)
Definition strip_quotes (raw : string) : string :=
  strip_trailing_quote (strip_leading_quote raw).

Definition parseResultsDirectory (command : string) : option string :=
  strip_quotes <$> results_match command.

(** *** The file system and the host

    A directory keeps its entries in the order [readdir] lists them.
    Both kinds of node carry the modification time that [stat] reports. *)
Inductive Node : Type :=
| File (content : string) (mtimeMs : Z)
| Dir (mtimeMs : Z) (entries : list (string * Node)).

Fixpoint entry (name : string) (es : list (string * Node)) : option Node :=
  match es with
  | [] => None
  | (n, x) :: r => if String.eqb n name then Some x else entry name r
  end.

Fixpoint set_entry (name : string) (x : Node) (es : list (string * Node))
  : list (string * Node) :=
  match es with
  | [] => [(name, x)]
  | (n, y) :: r =>
      if String.eqb n name then (n, x) :: r else (n, y) :: set_entry name x r
  end.

(** The node at a path, given by its components from the root. *)
Fixpoint lookup (p : list string) (n : Node) : option Node :=
  match p with
  | [] => Some n
  | c :: p' =>
      match n with
      | File _ _ => None
      | Dir _ es => child ← entry c es; lookup p' child
      end
  end.

(** [mkdir] with [recursive: true] at time [t]: the missing directories
    of the path are created, an existing directory is success, and a
    file on the way is an error ([None]). *)
Fixpoint mkdir_p (t : Z) (p : list string) (n : Node) : option Node :=
  match n with
  | File _ _ => None
  | Dir t0 es =>
      match p with
      | [] => Some n
      | c :: p' =>
          match entry c es with
          | Some child =>
              child' ← mkdir_p t p' child; Some (Dir t0 (set_entry c child' es))
          | None =>
              child' ← mkdir_p t p' (Dir t []); Some (Dir t (set_entry c child' es))
          end
      end
  end.

(** What the runner takes from its platform: [path.join], the way a path
    string names a node, the clock, the error of the platform that stops
    [mkdir] on a path, if there is one (no permission, a file system
    that is read-only or full, an empty path): [Some k] when [mkdir]
    gets no further than the first [k] components of the path, the XML
    parser reduced to the value it leaves at
    [TestRun.Results.UnitTestResult] (or the error it throws), and the
    shell running a command: the chunks it prints, its exit code ([None]
    for [null]) and what it does to the file system. *)
Class Host : Type := {
  path_join : string -> string -> string;
  resolve : string -> list string;
  now : Z;
  mkdir_error : string -> option nat;
  xml_parse : string -> Error + UnitTestResults;
  spawn : string -> string -> Node -> list string * option Z * Node
}.

Section Runner.

Context `{Host}.

(** How far down the path of [dir] a [mkdir] gets that meets no file. *)
Definition mkdir_reach (dir : string) : list string :=
  match mkdir_error dir with
  | None => resolve dir
  | Some k => take k (resolve dir)
  end.

(** [ensureDirectory]: an error of [mkdir] is ignored, whether it comes
    from a file on the path or from the platform. *)
Definition ensureDirectory (dir : string) (fs : Node) : Node :=
  default fs (mkdir_p now (mkdir_reach dir) fs).

Definition readdir (dir : string) (fs : Node) : option (list string) :=
  match lookup (resolve dir) fs with
  | Some (Dir _ es) => Some (map fst es)
  | _ => None
  end.

Definition stat_mtimeMs (p : string) (fs : Node) : option Z :=
  match lookup (resolve p) fs with
  | Some (File _ t) => Some t
  | Some (Dir t _) => Some t
  | None => None
  end.

Definition readFile (p : string) (fs : Node) : Error + string :=
  match lookup (resolve p) fs with
  | Some (File content _) => inr content
  | Some (Dir _ _) => inl (new_Error "EISDIR: illegal operation on a directory, read")
  | None => inl (new_Error "ENOENT: no such file or directory")
  end.

(** [stats.sort((a, b) => b.time - a.time)]: a stable sort, latest
    first; [x] comes from before the elements of [l] and stays before
    those of the same time. *)
Fixpoint insert_desc (x : string * Z) (l : list (string * Z)) : list (string * Z) :=
  match l with
  | [] => [x]
  | y :: r => if snd y <=? snd x then x :: l else y :: insert_desc x r
  end.

Definition sort_desc (l : list (string * Z)) : list (string * Z) :=
  foldr insert_desc [] l.

(** [findLatestTrx]: every exception ends in [undefined]. *)
Definition findLatestTrx (resultsDir : string) (fs : Node) : option string :=
  files ← readdir resultsDir fs;
  let trxFiles := List.filter (fun f => endsWith ".trx" (toLowerCase f)) files in
  match trxFiles with
  | [] => None
  | _ =>
      stats ← mapM (fun file =>
                 t ← stat_mtimeMs (path_join resultsDir file) fs; Some (file, t))
               trxFiles;
      match sort_desc stats with
      | latest :: _ => Some (path_join resultsDir (fst latest))
      | [] => None
      end
  end.

(** [parseTrx]: reading the file or parsing it may throw. *)
Definition parseTrx (trxPath : string) (fs : Node) : Error + TestRunResult :=
  match readFile trxPath fs with
  | inl e => inl e
  | inr content =>
      match xml_parse content with
      | inl e => inl e
      | inr value => inr (parseTrx_of trxPath value)
      end
  end.

Definition newline : string := String "010"%char EmptyString.

(** [output.appendLine]. *)
Definition appendLine (text : string) (out : list string) : list string :=
  out ++ [text +:+ newline].

(** [code && code !== 0]. *)
Definition code_nonzero (code : option Z) : bool :=
  match code with
  | Some z => negb (z =? 0)
  | None => false
  end.

(** [code === 0]. *)
Definition code_is_zero (code : option Z) : bool :=
  match code with
  | Some z => z =? 0
  | None => false
  end.

(** [code === null]. *)
Definition code_is_null (code : option Z) : bool :=
  match code with
  | Some _ => false
  | None => true
  end.

(** The object resolved when no artifact was parsed. *)
Definition exit_only (code : option Z) : TestRunResult :=
  {| success := code_is_zero code;
     failures := [];
     summary := {| passed := 0;
                   failed := if code_nonzero code then 1 else 0;
                   skipped := 0;
                   total := if code_nonzero code then 1 else 0;
                   durationMs := 0 |};
     resultsFile := None |}.

(** The handler of the child's [close] event: the result resolved and
    the output channel afterwards. *)
Definition on_close (resultsDir : string) (code : option Z) (fs : Node)
    (out : list string) : TestRunResult * list string :=
  match findLatestTrx resultsDir fs with
  | Some trx =>
      match parseTrx trx fs with
      | inr parsed =>
          ({| success := (length (failures parsed) =? 0)%nat
                         && (code_is_zero code || code_is_null code);
              failures := failures parsed;
              summary := summary parsed;
              resultsFile := resultsFile parsed |}, out)
      | inl err =>
          (exit_only code, appendLine ("Failed to parse TRX: " +:+ err_message err) out)
      end
  | None => (exit_only code, out)
  end.

(** The directory in which [runTests] looks for artifacts. *)
Definition resultsDir_of (command cwd : string) : string :=
  default (path_join cwd "deepseek_test_results") (parseResultsDirectory command).

(** [runTests] on a file system and an output channel: the result, the
    file system and the channel when the promise resolves. *)
Definition runTests (command cwd : string) (fs : Node) (out : list string)
  : TestRunResult * Node * list string :=
  let resultsDir := resultsDir_of command cwd in
  let fs1 := ensureDirectory resultsDir fs in
  let '(chunks, code, fs2) := spawn command cwd fs1 in
  let '(result, out') := on_close resultsDir code fs2 (out ++ chunks) in
  (result, fs2, out').

End Runner.

End TestRunner.

(** ** The LLM client *)
Module Llm.

Import Js.

Record LlmClientOptions : Type := mkOptions {
  apiUrl : string;
  apiKey : string;
  model : string;
  timeoutMs : Z;
  maxTokens : Z;
  temperature : Z;
  maxConcurrentRequests : Z
}.

(** The decoded body of a response, with the keys that [extractContent]
    reads. *)
Record Choice : Type := mkChoice {
  text : option string;
  message_content : option string
}.

Record Data : Type := mkData {
  choices : option (list Choice);
  data_content : option string;
  data_result : option string
}.

Record GenerateResult : Type := mkGenerateResult {
  content : string;
  raw : Data
}.

(** *** Semaphore

    A waiter in the queue is the [resolve] callback of the promise its
    caller awaits; [W] names the callers. *)
Section Semaphore.

Context {W : Type}.

Record Semaphore : Type := mkSemaphore {
  queue : list W;
  counter : Z
}.

Definition new_Semaphore (count : Z) : Semaphore :=
  {| queue := []; counter := Z.max 1 count |}.

(** [acquire] by the caller [me]: [true] when it returns at once,
    [false] when the caller is left waiting in the queue. *)
Definition acquire (me : W) (s : Semaphore) : bool * Semaphore :=
  if 0 <? counter s
  then (true, {| queue := queue s; counter := counter s - 1 |})
  else (false, {| queue := queue s ++ [me]; counter := counter s |}).

(** [release]: the caller resumed, if any, and the semaphore. *)
Definition release (s : Semaphore) : option W * Semaphore :=
  let c := counter s + 1 in
  match queue s with
  | next :: rest => (Some next, {| queue := rest; counter := c - 1 |})
  | [] => (None, {| queue := []; counter := c |})
  end.

End Semaphore.

Arguments Semaphore : clear implicits.

(** [options.maxConcurrentRequests || 1]. *)
Definition or_one (n : Z) : Z := if n =? 0 then 1 else n.

(** The semaphore that the constructor of [LlmClient] builds. *)
Definition client_semaphore {W} (options : LlmClientOptions) : Semaphore W :=
  new_Semaphore (or_one (maxConcurrentRequests options)).

(** *** One request

    The network, seen from one [fetch]: times are in milliseconds from
    the start of the request. *)
Record Response : Type := mkResponse {
  ok : bool;
  status : Z;
  statusText : string
}.

(** What [response.json()] gives: [Json data] is a value whose keys read
    by [extractContent] hold text or are absent; [JsonNull] is [null];
    [JsonNullishChoice first] is a value whose [choices] has a positive
    length and a first element that is [null] or missing; [Invalid e]
    is the rejection of a body that is no JSON. *)
Inductive Body : Type :=
| Json (data : Data)
| JsonNull
| JsonNullishChoice (first : Nullish)
| Invalid (e : Error).

Inductive Remote : Type :=
| Replies (head_at : Z) (response : Response) (body_at : Z) (body : Body)
| Fails (at_ms : Z) (e : Error)
| Silent.

Record Payload : Type := mkPayload {
  p_model : string;
  p_prompt : string;
  p_max_tokens : Z;
  p_temperature : Z
}.

Record Request : Type := mkRequest {
  url : string;
  authorization : string;
  body : Payload
}.

(** What the network does with the [n]-th request of a client. *)
Class Network : Type := remote : nat -> Request -> Remote.

(** The rejection of a [fetch] whose signal is aborted. *)
Definition AbortError : Error := mkError "AbortError" "The user aborted a request.".

Definition nonempty (o : option string) : option string :=
  match o with
  | Some (String _ _ as s) => Some s
  | _ => None
  end.

Fixpoint has_non_space (s : string) : bool :=
  match s with
  | EmptyString => false
  | String c r => negb (is_space c) || has_non_space r
  end.

Definition extractContent (data : Data) : string :=
  let from_choice :=
    match choices data with
    | Some (first :: _) =>
        match nonempty (message_content first) with
        | Some c => Some c
        | None => nonempty (text first)
        end
    | _ => None
    end in
  match from_choice with
  | Some c => c
  | None =>
      let content := match data_content data with
                     | Some c => Some c
                     | None => data_result data
                     end in
      match content with
      | Some c => if has_non_space c then c else ""
      | None => ""
      end
  end.

(** [ensureSuccess]. *)
Definition ensureSuccess (response : Response) : option Error :=
  if ok response then None
  else Some (new_Error ("LLM request failed: " +:+ pretty (status response)
                          +:+ " " +:+ statusText response)).

Section Client.

Context (options : LlmClientOptions) `{Network}.

Definition request_of (prompt : string) : Request :=
  {| url := apiUrl options;
     authorization := "Bearer " +:+ apiKey options;
     body := {| p_model := model options;
                p_prompt := prompt;
                p_max_tokens := maxTokens options;
                p_temperature := temperature options |} |}.

(** [this.extractContent(data)] on a decoded body: reading [choices] of
    [null] throws, and so does reading [message] of a first choice that
    is [null] or missing. *)
Definition extract (data : Body) : Error + GenerateResult :=
  match data with
  | Json data => inr (mkGenerateResult (extractContent data) data)
  | JsonNull => inl (TypeError_reading js_null "choices")
  | JsonNullishChoice first => inl (TypeError_reading first "message")
  | Invalid e => inl e
  end.

(** The [try] block of [call] on the [n]-th request: what it returns or
    throws, and after how long.  The timer set with [timeoutMs] fires
    after [timer_delay] and aborts the request unless the awaited value
    arrives before. *)
Definition try_call (n : nat) (prompt : string) : (Error + GenerateResult) * Z :=
  let t := timer_delay (timeoutMs options) in
  match remote n (request_of prompt) with
  | Silent => (inl AbortError, t)
  | Fails at_ms e => if at_ms <? t then (inl e, at_ms) else (inl AbortError, t)
  | Replies head_at response body_at body =>
      if head_at <? t then
        match ensureSuccess response with
        | Some e => (inl e, head_at)
        | None =>
            if body_at <? t then (extract body, body_at)
            else (inl AbortError, t)
        end
      else (inl AbortError, t)
  end.

(** [call]: the [catch] clause renames an abort. *)
Definition call (n : nat) (prompt : string) : (Error + GenerateResult) * Z :=
  match try_call n prompt with
  | (inl err, d) =>
      if String.eqb (err_name err) "AbortError"
      then (inl (new_Error "LLM request timed out"), d)
      else (inl err, d)
  | (inr r, d) => (inr r, d)
  end.

(** *** The retry loop

    What a client does is kept as a trace. *)
Inductive Event : Type :=
| Attempt (request_no : nat)
| Log (line : string)
| Sleep (ms : Z).

Record World : Type := mkWorld {
  requests : nat;
  clock : Z;
  trace : list Event
}.

Definition attempts : Z := 3.

(** The loop of [callWithRetry] from [attempt] on, [remaining] being the
    number of times its condition [attempt <= attempts] still holds. *)
Fixpoint retry_loop (remaining : nat) (attempt : Z) (prompt : string) (w : World)
  : (Error + GenerateResult) * World :=
  match remaining with
  | O => (inl (new_Error "Unexpected retry failure"), w)
  | S k =>
      let '(r, d) := call (requests w) prompt in
      let w1 := {| requests := S (requests w);
                   clock := clock w + d;
                   trace := trace w ++ [Attempt (requests w)] |} in
      match r with
      | inr result => (inr result, w1)
      | inl err =>
          let line := "[DeepSeek] Attempt " +:+ pretty attempt +:+ " failed: "
                        +:+ err_message err in
          let w2 := {| requests := requests w1;
                       clock := clock w1;
                       trace := trace w1 ++ [Log line] |} in
          if attempt =? attempts then (inl err, w2)
          else
            let ms := 500 * 2 ^ (attempt - 1) in
            retry_loop k (attempt + 1) prompt
              {| requests := requests w2;
                 clock := clock w2 + ms;
                 trace := trace w2 ++ [Sleep ms] |}
      end
  end.

Definition callWithRetry (prompt : string) (w : World)
  : (Error + GenerateResult) * World :=
  retry_loop (Z.to_nat attempts) 1 prompt w.

(** *** generate

    The call runs up to its first suspension in [generate_start]; the
    code after [await this.semaphore.acquire()] is [generate_resume],
    run at once when the semaphore had a slot and on resumption by a
    [release] otherwise. *)
Inductive Started : Type :=
| Rejected (e : Error)
| Entered
| Waiting.

Definition generate_start {W} (me : W) (sem : Semaphore W) : Started * Semaphore W :=
  match apiUrl options with
  | EmptyString =>
      (Rejected (new_Error "API URL is not configured (deepseekCSharp.assistant.apiUrl)."), sem)
  | _ =>
      match apiKey options with
      | EmptyString =>
          (Rejected (new_Error "API key is not configured (deepseekCSharp.assistant.apiKey)."), sem)
      | _ =>
          let '(now, sem') := acquire me sem in
          (if now then Entered else Waiting, sem')
      end
  end.

(** [try { return await this.callWithRetry(prompt) } finally
    { this.semaphore.release() }]: what the call settles with, the
    caller that the release resumes, and the semaphore. *)
Definition generate_resume {W} (prompt : string) (w : World) (sem : Semaphore W)
  : (Error + GenerateResult) * World * option W * Semaphore W :=
  let '(r, w') := callWithRetry prompt w in
  let '(woken, sem') := release sem in
  (r, w', woken, sem').

(** A whole call of [generate] with no other call in between. *)
Inductive Completion : Type :=
| Thrown (e : Error)
| Returned (r : GenerateResult)
| Pending.

Definition generate {W} (me : W) (prompt : string) (w : World) (sem : Semaphore W)
  : Completion * World * Semaphore W :=
  match generate_start me sem with
  | (Rejected e, sem') => (Thrown e, w, sem')
  | (Waiting, sem') => (Pending, w, sem')
  | (Entered, sem') =>
      let '(r, w', _, sem'') := generate_resume prompt w sem' in
      (match r with inl e => Thrown e | inr g => Returned g end, w', sem'')
  end.

(** *** Concurrent calls of one client

    Calls are named by numbers.  Between two suspension points nothing
    else runs, so a history of one client is a sequence of two kinds of
    atomic action: a call of [generate] running up to its first
    suspension, and the body of an entered call settling (with any
    result), which runs the [finally] block.  [arrived] and [admitted]
    record, in order, the calls that reached [acquire] and the calls
    that got a slot; [running] holds the calls that have a slot and have
    not released it. *)
Record Gate : Type := mkGate {
  sem : Semaphore nat;
  running : list nat;
  arrived : list nat;
  admitted : list nat
}.

Inductive Action : Type :=
| Call (id : nat)
| Settle (id : nat) (r : Error + GenerateResult).

Definition init : Gate :=
  {| sem := client_semaphore options; running := []; arrived := []; admitted := [] |}.

Fixpoint without (id : nat) (l : list nat) : list nat :=
  match l with
  | [] => []
  | x :: r => if Nat.eqb x id then r else x :: without id r
  end.

(** One action; [None] when it cannot happen (a name used twice, a call
    settling that holds no slot). *)
Definition step (a : Action) (g : Gate) : option Gate :=
  match a with
  | Call id =>
      if decide (id ∈ arrived g) then None
      else
        match generate_start id (sem g) with
        | (Rejected _, _) => Some g
        | (Entered, s) =>
            Some {| sem := s;
                    running := running g ++ [id];
                    arrived := arrived g ++ [id];
                    admitted := admitted g ++ [id] |}
        | (Waiting, s) =>
            Some {| sem := s;
                    running := running g;
                    arrived := arrived g ++ [id];
                    admitted := admitted g |}
        end
  | Settle id _ =>
      if decide (id ∈ running g) then
        match release (sem g) with
        | (Some next, s) =>
            Some {| sem := s;
                    running := without id (running g) ++ [next];
                    arrived := arrived g;
                    admitted := admitted g ++ [next] |}
        | (None, s) =>
            Some {| sem := s;
                    running := without id (running g);
                    arrived := arrived g;
                    admitted := admitted g |}
        end
      else None
  end.

Fixpoint run (acts : list Action) (g : Gate) : option Gate :=
  match acts with
  | [] => Some g
  | a :: rest => g' ← step a g; run rest g'
  end.

(** The ceiling of the client. *)
Definition capacity : Z := Z.max 1 (or_one (maxConcurrentRequests options)).

End Client.

End Llm.

(** ** Concrete hosts and networks *)
Module Scenario.

Import Js TestRunner Llm.

Definition posix_join (a b : string) : string := a +:+ "/" +:+ b.

(** The components of a path written with [/], from the root. *)
Fixpoint components (cur : string) (s : string) : list string :=
  match s with
  | EmptyString => match cur with EmptyString => [] | _ => [cur] end
  | String c r =>
      if is_char c "/"%char
      then match cur with
           | EmptyString => components EmptyString r
           | _ => cur :: components EmptyString r
           end
      else components (cur +:+ String c EmptyString) r
  end.

Definition posix_resolve (p : string) : list string :=
  List.filter (fun c => negb (String.eqb c ".")) (components EmptyString p).

(** [mkdir] of the empty path is an error; nothing else is refused. *)
Definition posix_mkdir_error (dir : string) : option nat :=
  match dir with
  | EmptyString => Some 0%nat
  | _ => None
  end.

Definition no_xml (content : string) : Error + UnitTestResults :=
  inl (new_Error "Unexpected end of input").

(** A command that prints nothing, writes nothing and exits with
    [code]. *)
Definition idle (code : option Z) : Host :=
  {| path_join := posix_join;
     resolve := posix_resolve;
     now := 1700000000000;
     mkdir_error := posix_mkdir_error;
     xml_parse := no_xml;
     spawn := fun _ _ fs => ([], code, fs) |}.

Definition empty_root : Node := Dir 0 [].

Definition passed_record : UnitTestResult :=
  {| attr_outcome := Some "Passed";
     attr_testName := Some "Foo.Baz";
     attr_duration := Some "00:00:01.500";
     output := None |}.

Definition failed_record : UnitTestResult :=
  {| attr_outcome := Some "Failed";
     attr_testName := Some "Foo.Bar";
     attr_duration := None;
     output := Some (mkOutput (Some (mkErrorInfo (Some "boom") None))) |}.


(** A host whose parser finds one passed record in every document and
    whose command leaves [results.trx] in [/w/out] and exits with
    [code]. *)
Definition green (code : option Z) : Host :=
  {| path_join := posix_join;
     resolve := posix_resolve;
     now := 1700000000000;
     mkdir_error := posix_mkdir_error;
     xml_parse := fun _ => inr (Single passed_record);
     spawn := fun _ _ _ =>
       ([], code,
        Dir 0 [("w", Dir 0 [("out", Dir 0 [("results.trx", File "<TestRun/>" 5)])])]) |}.

Definition options : LlmClientOptions :=
  {| apiUrl := "https://api.deepseek.com/v1/chat/completions";
     apiKey := "sk-test";
     model := "deepseek-chat";
     timeoutMs := 30000;
     maxTokens := 1024;
     temperature := 0;
     maxConcurrentRequests := 2 |}.

Definition no_key : LlmClientOptions :=
  {| apiUrl := "https://api.deepseek.com/v1/chat/completions";
     apiKey := "";
     model := "deepseek-chat";
     timeoutMs := 30000;
     maxTokens := 1024;
     temperature := 0;
     maxConcurrentRequests := 2 |}.

Definition hello : Data :=
  {| choices := Some [mkChoice None (Some "class A {}")];
     data_content := None;
     data_result := None |}.

(** A network that never answers. *)
Definition silent : Network := fun _ _ => Silent.

(** A network that answers 503 twice and then 200, each after 40 ms. *)
Definition flaky : Network := fun n _ =>
  match n with
  | 0%nat | 1%nat => Replies 40 (mkResponse false 503 "Service Unavailable") 45 (Json hello)
  | _ => Replies 40 (mkResponse true 200 "OK") 45 (Json hello)
  end.

Definition world0 : World := {| requests := 0; clock := 0; trace := [] |}.

End Scenario.

(** ** The webview: escaping *)
Module Webview.

Import Js.

(** [s.replace(/c/g, rep)] for a pattern of one character and a
    replacement without [$]. *)
Fixpoint replace_char (c : ascii) (rep : string) (s : string) : string :=
  match s with
  | EmptyString => EmptyString
  | String x r =>
      if is_char x c then rep +:+ replace_char c rep r
      else String x (replace_char c rep r)
  end.

(** [escapeHtml]: five replacements, one after the other. *)
Definition escapeHtml (value : string) : string :=
  replace_char squote "&#39;"
    (replace_char dquote "&quot;"
       (replace_char ">"%char "&gt;"
          (replace_char "<"%char "&lt;"
             (replace_char "&"%char "&amp;" value)))).

(** What the five replacements make of one character. *)
Definition escape_char (x : ascii) : string :=
  if is_char x "&"%char then "&amp;"
  else if is_char x "<"%char then "&lt;"
  else if is_char x ">"%char then "&gt;"
  else if is_char x dquote then "&quot;"
  else if is_char x squote then "&#39;"
  else String x EmptyString.

(** None of the five characters that [escapeHtml] replaces occurs in
    [s]. *)
Definition plain (s : string) : bool :=
  negb (occurs "&"%char s || occurs "<"%char s || occurs ">"%char s
        || occurs dquote s || occurs squote s).

End Webview.

(** ** The extension: the context sent with a request *)
Module Extension.

Import Js.

(** [document.lineAt(line).text]: an error ([None]) outside the
    document. *)
Definition lineAt (document : list string) (line : Z) : option string :=
  if (0 <=? line) && (line <? Z.of_nat (length document))
  then document !! Z.to_nat line
  else None.

(** The loop of [buildContextSnippet] from [line] on, [count] being the
    number of times its condition [line <= endLine] still holds. *)
Fixpoint collect_lines (document : list string) (count : nat) (line : Z)
  : option (list string) :=
  match count with
  | O => Some []
  | S k =>
      text ← lineAt document line;
      rest ← collect_lines document k (line + 1);
      Some (text :: rest)
  end.

(** [lines.join(sep)]. *)
Fixpoint join (sep : string) (lines : list string) : string :=
  match lines with
  | [] => EmptyString
  | [l] => l
  | l :: rest => l +:+ sep +:+ join sep rest
  end.

Definition startLine_of (sel_start contextLines : Z) : Z :=
  Z.max 0 (sel_start - contextLines).

Definition endLine_of (document : list string) (sel_end contextLines : Z) : Z :=
  Z.min (Z.of_nat (length document) - 1) (sel_end + contextLines).

(** The array [lines] when the loop of [buildContextSnippet] ends. *)
Definition snippet_lines (document : list string) (sel_start sel_end contextLines : Z)
  : option (list string) :=
  let startLine := startLine_of sel_start contextLines in
  let endLine := endLine_of document sel_end contextLines in
  collect_lines document (Z.to_nat (endLine - startLine + 1)) startLine.

(** [buildContextSnippet] on the lines of the document and the first and
    last line of the selection; [None] when [lineAt] throws. *)
Definition buildContextSnippet (document : list string) (sel_start sel_end contextLines : Z)
  : option string :=
  join (String "010"%char EmptyString)
    <$> snippet_lines document sel_start sel_end contextLines.

(** [s.replace(pattern, replacement)] for a pattern that is a string:
    the first occurrence is replaced, and in the replacement [$$] stands
    for [$], [$&] for the pattern, [$] with a backtick for what precedes
    the occurrence and [$] with a single quote for what follows it;
    without capture groups every other [$] stands for itself. *)
Fixpoint split_at_first (pattern s : string) : option (string * string) :=
  if startsWith pattern s then Some (EmptyString, drop (String.length pattern) s)
  else
    match s with
    | EmptyString => None
    | String c r =>
        match split_at_first pattern r with
        | Some (before, after) => Some (String c before, after)
        | None => None
        end
    end.

Definition dollar : ascii := "$"%char.

Fixpoint substitute (matched before after : string) (replacement : string) : string :=
  match replacement with
  | EmptyString => EmptyString
  | String c r =>
      if is_char c dollar then
        match r with
        | String d r' =>
            if is_char d dollar then String dollar (substitute matched before after r')
            else if is_char d "&"%char then matched +:+ substitute matched before after r'
            else if is_char d "`"%char then before +:+ substitute matched before after r'
            else if is_char d squote then after +:+ substitute matched before after r'
            else String c (substitute matched before after r)
        | EmptyString => String c EmptyString
        end
      else String c (substitute matched before after r)
  end.

Definition replace (pattern replacement s : string) : string :=
  match split_at_first pattern s with
  | None => s
  | Some (before, after) =>
      before +:+ substitute pattern before after replacement +:+ after
  end.

(** The template of [buildPrompt] when no template file is read. *)
Definition default_template : string :=
  join (String "010"%char EmptyString)
    ["You are a helpful, precise C# coding assistant. Given the following context and related unit tests, produce only the C# code required that passes the tests.";
     "";
     "Context:";
     "<CODE_BLOCK>";
     "<CODE_BLOCK_CONTENT>";
     "";
     "Tests Summary:";
     "<TEST_SUMMARY>";
     "";
     "Constraints:";
     "- Target framework: net6.0";
     "- Only return code, no explanation or comments";
     "- Follow existing naming conventions and styling in the file";
     "- Do not introduce secrets or hard-coded credentials";
     ""].

Definition testSummary : string :=
  "Tests will be executed via the configured command and validated automatically after code is inserted.".

(** [buildPrompt], [template] being what [readTemplateFile] returned
    ([None] for [undefined]). *)
Definition buildPrompt (template : option string) (contextSnippet : string) : string :=
  replace "<TEST_SUMMARY>" testSummary
    (replace "<CODE_BLOCK>" "Current file context"
       (replace "<CODE_BLOCK_CONTENT>" contextSnippet
          (default default_template template))).

(** The prompt of the default template up to the snippet, and from the
    snippet on with [summary] under [Tests Summary:]. *)
Definition prompt_head : string :=
  join (String "010"%char EmptyString)
    ["You are a helpful, precise C# coding assistant. Given the following context and related unit tests, produce only the C# code required that passes the tests.";
     "";
     "Context:";
     "Current file context";
     ""].

Definition prompt_tail (summary : string) : string :=
  join (String "010"%char EmptyString)
    ["";
     "";
     "Tests Summary:";
     summary;
     "";
     "Constraints:";
     "- Target framework: net6.0";
     "- Only return code, no explanation or comments";
     "- Follow existing naming conventions and styling in the file";
     "- Do not introduce secrets or hard-coded credentials";
     ""].

(** The default template before [<CODE_BLOCK_CONTENT>]. *)
Definition template_before : string :=
  join (String "010"%char EmptyString)
    ["You are a helpful, precise C# coding assistant. Given the following context and related unit tests, produce only the C# code required that passes the tests.";
     "";
     "Context:";
     "<CODE_BLOCK>";
     ""].

End Extension.

(** ** Histories of a semaphore used without discipline *)
Module SemaphoreHistory.

Import Llm.

(** Any caller may call [acquire] and anything may call [release], in
    any order. *)
Inductive Op : Type :=
| Acquire (who : nat)
| Release.

Definition apply (o : Op) (s : Semaphore nat) : Semaphore nat :=
  match o with
  | Acquire who => (acquire who s).2
  | Release => (release s).2
  end.

Definition history (ops : list Op) (s : Semaphore nat) : Semaphore nat :=
  fold_left (fun s o => apply o s) ops s.

Definition acquires (ops : list Op) : Z :=
  Z.of_nat (length (List.filter (fun o => match o with Acquire _ => true | Release => false end) ops)).

Definition releases (ops : list Op) : Z :=
  Z.of_nat (length (List.filter (fun o => match o with Acquire _ => false | Release => true end) ops)).

End SemaphoreHistory.

(** ** Predicates on strings *)
Module Text.

Import Js.

(** Every character of [s] satisfies [p]. *)
Fixpoint all_chars (p : ascii -> bool) (s : string) : bool :=
  match s with
  | EmptyString => true
  | String c r => p c && all_chars p r
  end.

(** [pattern] starts at no position of [s]. *)
Fixpoint absent (pattern s : string) : bool :=
  negb (startsWith pattern s) &&
  match s with
  | EmptyString => true
  | String _ r => absent pattern r
  end.

(** At no position of [s] does the flag [--results-directory] stand
    followed by a white-space character. *)
Fixpoint no_flag_then_space (s : string) : bool :=
  negb (startsWith TestRunner.flag s &&
        match drop (String.length TestRunner.flag) s with
        | String c _ => is_space c
        | EmptyString => false
        end) &&
  match s with
  | EmptyString => true
  | String _ r => no_flag_then_space r
  end.

End Text.

(** ** More concrete cases *)
Module Cases.

Import Js TestRunner Llm.

(** [/w/out] with three artifacts and a text file. *)
Definition three_artifacts : Node :=
  Dir 0 [("w", Dir 0 [("out", Dir 0 [("old.trx", File "<TestRun/>" 5);
                                      ("notes.txt", File "later" 9);
                                      ("New.TRX", File "<TestRun/>" 7);
                                      ("same.trx", File "<TestRun/>" 7)])])].

(** [/w/out] is a file. *)
Definition out_is_a_file : Node :=
  Dir 0 [("w", Dir 0 [("out", File "not a directory" 3)])].

(** A host whose command leaves [results.trx] in [/w/out] and exits
    with [code], and whose parser rejects every document. *)
Definition broken (code : option Z) : Host :=
  {| path_join := Scenario.posix_join;
     resolve := Scenario.posix_resolve;
     now := 1700000000000;
     mkdir_error := Scenario.posix_mkdir_error;
     xml_parse := Scenario.no_xml;
     spawn := fun _ _ _ =>
       (["Build started."; "Build failed."], code,
        Dir 0 [("w", Dir 0 [("out", Dir 0 [("results.trx", File "<TestRun" 5)])])]) |}.

(** A host whose command does nothing and exits with [code], and whose
    parser finds one passed record in every document. *)
Definition quiet (code : option Z) : Host :=
  {| path_join := Scenario.posix_join;
     resolve := Scenario.posix_resolve;
     now := 1700000000000;
     mkdir_error := Scenario.posix_mkdir_error;
     xml_parse := fun _ => inr (Single Scenario.passed_record);
     spawn := fun _ _ fs => ([], code, fs) |}.

(** The number of settling calls in a history of a client. *)
Definition settles (acts : list Action) : nat :=
  length (List.filter (fun a => match a with Settle _ _ => true | Call _ => false end) acts).

(** A host on a file system that takes no new directory below [/w]. *)
Definition read_only : Host :=
  {| path_join := Scenario.posix_join;
     resolve := Scenario.posix_resolve;
     now := 1700000000000;
     mkdir_error := fun _ => Some 1%nat;
     xml_parse := Scenario.no_xml;
     spawn := fun _ _ fs => ([], Some 1, fs) |}.

(** The options of [Scenario.options] with another timeout and another
    ceiling. *)
Definition with_timeout (t : Z) : LlmClientOptions :=
  {| apiUrl := apiUrl Scenario.options;
     apiKey := apiKey Scenario.options;
     model := model Scenario.options;
     timeoutMs := t;
     maxTokens := maxTokens Scenario.options;
     temperature := temperature Scenario.options;
     maxConcurrentRequests := maxConcurrentRequests Scenario.options |}.

Definition with_ceiling (n : Z) : LlmClientOptions :=
  {| apiUrl := apiUrl Scenario.options;
     apiKey := apiKey Scenario.options;
     model := model Scenario.options;
     timeoutMs := timeoutMs Scenario.options;
     maxTokens := maxTokens Scenario.options;
     temperature := temperature Scenario.options;
     maxConcurrentRequests := n |}.

(** A network that answers 200 after 40 ms with a given body after
    45 ms. *)
Definition answers (b : Body) : Network := fun _ _ =>
  Replies 40 (mkResponse true 200 "OK") 45 b.

End Cases.

(** ** What the design document says, as predicates over the runner *)
Module Documented.

Import Js TestRunner.




(** The success flag of the data model: no failure, and an exit code
    that is zero or unknown. *)
Definition reconciled (r : TestRunResult) (code : option Z) : bool :=
  match failures r, code with
  | [], Some 0 => true
  | [], None => true
  | _, _ => false
  end.

(** No artifact was found, or reading and parsing it threw. *)
Definition no_artifact_parsed `{Host} (resultsDir : string) (fs : Node) : Prop :=
  findLatestTrx resultsDir fs = None \/
  exists trx e, findLatestTrx resultsDir fs = Some trx /\ parseTrx trx fs = inl e.

Definition is_dir (n : Node) : Prop :=
  match n with
  | Dir _ _ => True
  | File _ _ => False
  end.

(** Two nodes of the same kind; files also of the same content and
    modification time. *)
Definition same_kind (a b : Node) : Prop :=
  match a, b with
  | File c m, File c' m' => c = c' /\ m = m'
  | Dir _ _, Dir _ _ => True
  | _, _ => False
  end.

(** The success flag of every run is the one of the data model. *)
Definition success_is_reconciled : Prop :=
  forall (H : Host) (command cwd : string) (fs : Node) (out chunks : list string)
         (code : option Z) (fs2 : Node),
    spawn command cwd (ensureDirectory (resultsDir_of command cwd) fs) = (chunks, code, fs2) ->
    success (runTests command cwd fs out).1.1
    = reconciled (runTests command cwd fs out).1.1 code.

(** The file system after a run is the one that the test command alone
    leaves behind: nothing else creates or writes anything. *)
Definition only_the_command_writes : Prop :=
  forall (H : Host) (command cwd : string) (fs : Node) (out : list string),
    (runTests command cwd fs out).1.2 = (spawn command cwd fs).2.

End Documented.

(** ** What the design document says about the client *)
Module LlmDocumented.

Import Js Llm.

(** The attempt outlasts the timeout [t]: what it awaits has not arrived
    when [t] milliseconds have passed. *)
Definition late (t : Z) (r : Remote) : bool :=
  match r with
  | Silent => true
  | Fails at_ms _ => t <? at_ms
  | Replies head_at response body_at _ =>
      (t <? head_at) || (ok response && (t <? body_at))
  end.

(** An attempt that outlasts the timeout fails with the message
    [request timed out]. *)
Definition timeout_message_is_request_timed_out : Prop :=
  forall (options : LlmClientOptions) (N : Network) (n : nat) (prompt : string),
    late (timeoutMs options) (remote n (request_of options prompt)) = true ->
    exists e, (call options n prompt).1 = inl e /\
              err_message e = "request timed out".

(** What holds of the gate of a client at every moment. *)
Definition gate_inv (options : LlmClientOptions) (g : Gate) : Prop :=
  0 <= counter (sem g) /\
  counter (sem g) + Z.of_nat (length (running g)) = capacity options /\
  (queue (sem g) <> [] -> counter (sem g) = 0) /\
  arrived g = admitted g ++ queue (sem g).

End LlmDocumented.

(** ** Properties of the test runner *)
Module RunnerProofs.

Import Js TestRunner Documented Scenario.

(** *** Durations *)

Lemma is_char_eq (x c : ascii) : is_char x c = true -> x = c.
Proof.
  unfold is_char, code. intros E. apply N.eqb_eq in E.
  rewrite <- (ascii_N_embedding x), <- (ascii_N_embedding c). by rewrite E.
Qed.

Lemma backslash_ds_NaN (s g rest : string) :
  backslash_ds s = Some (g, rest) -> Number g = NaN.
Proof.
  destruct s as [|c r]; simpl; [done|].
  destruct (is_char c backslash) eqn:E; [|done].
  apply is_char_eq in E. subst c.
  destruct (span _ r) as [ds rest']. destruct ds; [done|].
  intros [= <- <-]. reflexivity.
Qed.

Lemma duration_match_here_NaN (s : string) (g : DurationGroups) :
  duration_match_here s = Some g -> Number (group_h g) = NaN.
Proof.
  unfold duration_match_here. intros E.
  destruct (backslash_ds s) as [[h s1]|] eqn:Eh; simpl in E; [|done].
  apply backslash_ds_NaN in Eh.
  destruct (expect ":" s1) as [s2|]; simpl in E; [|done].
  destruct (backslash_ds s2) as [[m s3]|]; simpl in E; [|done].
  destruct (expect ":" s3) as [s4|]; simpl in E; [|done].
  destruct (backslash_ds s4) as [[sec s5]|]; simpl in E; [|done].
  by injection E as <-.
Qed.

Lemma duration_match_NaN (s : string) (g : DurationGroups) :
  duration_match s = Some g -> Number (group_h g) = NaN.
Proof.
  induction s as [|c r IH]; simpl.
  - done.
  - destruct (duration_match_here (String c r)) eqn:E.
    + intros [= <-]. by eapply duration_match_here_NaN.
    + exact IH.
Qed.

(** Whatever the text, [parseDuration] returns [0] or [NaN]: a value
    that the loop of [parseTrx] does not add. *)
Lemma parseDuration_falsy (s : string) : truthy (parseDuration s) = false.
Proof.
  unfold parseDuration.
  destruct (duration_match s) as [g|] eqn:E; [|reflexivity].
  apply duration_match_NaN in E. by rewrite E.
Qed.

Lemma visit_durationMs (a : Acc) (r : UnitTestResult) :
  acc_durationMs (visit a r) = acc_durationMs a.
Proof.
  unfold visit. rewrite parseDuration_falsy.
  by destruct (classify (outcome_of r)).
Qed.

Lemma fold_visit_durationMs (rs : list UnitTestResult) (a : Acc) :
  acc_durationMs (fold_left visit rs a) = acc_durationMs a.
Proof.
  revert a. induction rs as [|r rs IH]; intros a; simpl; [done|].
  by rewrite IH, visit_durationMs.
Qed.

(** C3 (the code departs from the claim): the pattern of
    [parseDuration] asks for backslashes and letters [d] where digits
    were meant, so the duration [00:00:01.500] is read as 0 ms instead of
    1500 ms, and the [durationMs] of every parsed artifact is 0. *)
Theorem C3_duration_is_never_counted :
  parseDuration "00:00:01.500" = Num 0 /\
  durationMs (summary (parseTrx_of "results.trx" (Many [passed_record; failed_record]))) = 0 /\
  forall (trxPath : string) (value : UnitTestResults),
    durationMs (summary (parseTrx_of trxPath value)) = 0.
Proof.
  split; [reflexivity|]. split; [reflexivity|].
  intros trxPath value. unfold parseTrx_of. simpl.
  by rewrite fold_visit_durationMs.
Qed.

(** *** Outcomes *)







(** *** The success flag *)

Lemma on_close_parsed `{Host} (dir : string) (code : option Z) (fs : Node)
    (out : list string) (trx : string) (parsed : TestRunResult) :
  findLatestTrx dir fs = Some trx ->
  parseTrx trx fs = inr parsed ->
  let r := (on_close dir code fs out).1 in
  failures r = failures parsed /\ summary r = summary parsed /\
  success r = reconciled r code.
Proof.
  intros Hf Hp. unfold on_close. rewrite Hf, Hp. simpl.
  unfold reconciled; simpl.
  destruct (failures parsed); destruct code as [[| |]|]; done.
Qed.

Lemma on_close_exit_only `{Host} (dir : string) (code : option Z) (fs : Node)
    (out : list string) :
  no_artifact_parsed dir fs -> (on_close dir code fs out).1 = exit_only code.
Proof.
  unfold on_close. intros [Hn | (trx & e & Hf & Hp)].
  - by rewrite Hn.
  - by rewrite Hf, Hp.
Qed.

Lemma exit_only_known_code (c : Z) :
  success (exit_only (Some c)) = reconciled (exit_only (Some c)) (Some c).
Proof. by destruct c. Qed.

Lemma runTests_result `{Host} (command cwd : string) (fs : Node) (out chunks : list string)
    (code : option Z) (fs2 : Node) :
  spawn command cwd (ensureDirectory (resultsDir_of command cwd) fs) = (chunks, code, fs2) ->
  (runTests command cwd fs out).1.1
  = (on_close (resultsDir_of command cwd) code fs2 (out ++ chunks)).1.
Proof.
  intros Hs. unfold runTests. rewrite Hs.
  by destruct (on_close _ _ _ _).
Qed.

Lemma parsed_or_not `{Host} (dir : string) (fs : Node) :
  (exists trx parsed, findLatestTrx dir fs = Some trx /\ parseTrx trx fs = inr parsed) \/
  no_artifact_parsed dir fs.
Proof.
  unfold no_artifact_parsed.
  destruct (findLatestTrx dir fs) as [trx|]; [|by right; left].
  destruct (parseTrx trx fs) as [e|parsed] eqn:Ep.
  - right. right. by exists trx, e.
  - left. by exists trx, parsed.
Qed.

(** C1 (the claim as stated fails): a command that leaves no artifact
    and whose exit code is unknown ([null]: the child was ended by a
    signal) is reported with an empty list of failures and
    [success = false]. *)
Lemma C1_counterexample : ~ success_is_reconciled.
Proof.
  intros Hclaim.
  specialize (Hclaim (idle None) "dotnet test" "/w" empty_root [] [] None _ eq_refl).
  vm_compute in Hclaim. discriminate Hclaim.
Qed.

(** C1 (amended): when an artifact was parsed, [success] is true
    exactly when the list of failures is empty and the exit code is zero
    or unknown; when none was, the list of failures is empty and
    [success] is true exactly when the exit code is zero.  On both paths
    a non-zero exit code gives [success = false], and for every known
    exit code [success] is the flag of the data model. *)
Theorem C1_success_flag `{Host} (command cwd : string) (fs : Node)
    (out chunks : list string) (code : option Z) (fs2 : Node) :
  spawn command cwd (ensureDirectory (resultsDir_of command cwd) fs) = (chunks, code, fs2) ->
  let dir := resultsDir_of command cwd in
  let r := (runTests command cwd fs out).1.1 in
  (forall trx parsed,
     findLatestTrx dir fs2 = Some trx -> parseTrx trx fs2 = inr parsed ->
     failures r = failures parsed /\ success r = reconciled r code) /\
  (no_artifact_parsed dir fs2 ->
     failures r = [] /\ success r = code_is_zero code) /\
  (forall c, code = Some c -> c <> 0 -> success r = false) /\
  (forall c, code = Some c -> success r = reconciled r code).
Proof.
  intros Hs dir r. subst r. rewrite (runTests_result _ _ _ _ _ _ _ Hs). fold dir.
  assert (Hp : forall trx parsed,
             findLatestTrx dir fs2 = Some trx -> parseTrx trx fs2 = inr parsed ->
             failures (on_close dir code fs2 (out ++ chunks)).1 = failures parsed /\
             success (on_close dir code fs2 (out ++ chunks)).1
             = reconciled (on_close dir code fs2 (out ++ chunks)).1 code).
  { intros trx parsed Hf Hp.
    by destruct (on_close_parsed dir code fs2 (out ++ chunks) trx parsed Hf Hp) as (? & _ & ?). }
  assert (Hn : no_artifact_parsed dir fs2 ->
               failures (on_close dir code fs2 (out ++ chunks)).1 = [] /\
               success (on_close dir code fs2 (out ++ chunks)).1 = code_is_zero code).
  { intros Hn. by rewrite (on_close_exit_only _ _ _ _ Hn). }
  assert (Hk : forall c, code = Some c ->
               success (on_close dir code fs2 (out ++ chunks)).1
               = reconciled (on_close dir code fs2 (out ++ chunks)).1 code).
  { intros c ->. destruct (parsed_or_not dir fs2) as [(trx & parsed & Hf & Hq)|Hno].
    - by apply (Hp trx parsed).
    - rewrite (on_close_exit_only _ _ _ _ Hno). apply exit_only_known_code. }
  split; [exact Hp|]. split; [exact Hn|]. split; [|exact Hk].
  intros c -> Hc. rewrite (Hk c eq_refl). unfold reconciled.
  destruct (failures _); destruct c; done.
Qed.

Lemma C1_success_flag_witness :
  @spawn (green (Some 1)) "dotnet test --results-directory /w/out" "/w"
     (@ensureDirectory (green (Some 1))
        (@resultsDir_of (green (Some 1)) "dotnet test --results-directory /w/out" "/w")
        empty_root)
  = ([], Some 1,
     Dir 0 [("w", Dir 0 [("out", Dir 0 [("results.trx", File "<TestRun/>" 5)])])]) /\
  failures (@runTests (green (Some 1)) "dotnet test --results-directory /w/out" "/w"
              empty_root []).1.1 = [] /\
  success (@runTests (green (Some 1)) "dotnet test --results-directory /w/out" "/w"
             empty_root []).1.1 = false.
Proof.
  split; [reflexivity|]. split; [reflexivity|].
  apply (proj1 (proj2 (proj2 (@C1_success_flag (green (Some 1))
                   "dotnet test --results-directory /w/out" "/w" empty_root [] []
                   (Some 1) _ eq_refl))) 1 eq_refl).
  discriminate.
Defined.

(** C2: when no artifact is found, or reading and parsing the artifact
    throws, the result of [runTests] is built from the exit code alone:
    code 0 gives success with no failure and an all-zero summary, a
    non-zero code gives failure with [failed = 1], [total = 1] and an
    empty list of failures. *)
Theorem C2_exit_only_synthesis `{Host} (command cwd : string) (fs : Node)
    (out chunks : list string) (code : option Z) (fs2 : Node) :
  spawn command cwd (ensureDirectory (resultsDir_of command cwd) fs) = (chunks, code, fs2) ->
  no_artifact_parsed (resultsDir_of command cwd) fs2 ->
  let r := (runTests command cwd fs out).1.1 in
  (code = Some 0 ->
   r = mkTestRunResult true [] (mkTestSummary 0 0 0 0 0) None) /\
  (forall c, code = Some c -> c <> 0 ->
   r = mkTestRunResult false [] (mkTestSummary 0 1 0 1 0) None).
Proof.
  intros Hs Hn r. subst r.
  rewrite (runTests_result _ _ _ _ _ _ _ Hs), (on_close_exit_only _ _ _ _ Hn).
  split.
  - by intros ->.
  - intros c -> Hc. unfold exit_only; simpl.
    destruct (Z.eqb_spec c 0); done.
Qed.

(** With an unknown exit code the same path gives a failed run with an
    all-zero summary. *)
Lemma exit_only_unknown_code :
  exit_only None = mkTestRunResult false [] (mkTestSummary 0 0 0 0 0) None.
Proof. reflexivity. Qed.

Lemma C2_exit_only_synthesis_witness :
  @spawn (idle (Some 1)) "dotnet test" "/w"
     (@ensureDirectory (idle (Some 1)) (@resultsDir_of (idle (Some 1)) "dotnet test" "/w") empty_root)
  = ([], Some 1, Dir 1700000000000
       [("w", Dir 1700000000000 [("deepseek_test_results", Dir 1700000000000 [])])]) /\
  (@runTests (idle (Some 1)) "dotnet test" "/w" empty_root []).1.1
  = mkTestRunResult false [] (mkTestSummary 0 1 0 1 0) None.
Proof.
  split; [reflexivity|].
  refine (proj2 (@C2_exit_only_synthesis (idle (Some 1)) "dotnet test" "/w" empty_root
                   [] [] (Some 1) _ eq_refl _) 1 eq_refl _).
  - left. reflexivity.
  - discriminate.
Defined.

(** *** The results directory *)

Lemma resultsDir_of_default `{Host} (command cwd : string) :
  results_match command = None ->
  resultsDir_of command cwd = path_join cwd "deepseek_test_results".
Proof. unfold resultsDir_of, parseResultsDirectory. by intros ->. Qed.

Lemma resultsDir_of_quoted `{Host} (cwd : string) :
  resultsDir_of ("dotnet test --results-directory 'my results' --logger trx") cwd
  = "my results" /\
  resultsDir_of ("dotnet test --results-directory "
                   +:+ String dquote ("out/trx" +:+ String dquote " --logger trx")) cwd
  = "out/trx".
Proof. split; reflexivity. Qed.

Lemma span_satisfies (p : ascii -> bool) (c : ascii) (s : string) :
  (forall x, p x = true -> is_char x c = false) ->
  occurs c (span p s).1 = false.
Proof.
  intros Hp. induction s as [|x r IH]; simpl; [done|].
  destruct (p x) eqn:Ex; [|done].
  destruct (span p r) as [a b]. simpl in *. by rewrite (Hp x Ex).
Qed.

(** What the third alternative of the pattern captures holds neither an
    [s] nor a backslash. *)
Lemma bare_stops_at_s (s run : string) :
  bare s = Some run -> occurs "s" run = false /\ occurs backslash run = false.
Proof.
  unfold bare.
  set (p := fun x => negb (is_char x backslash || is_char x "s")).
  intros E.
  assert (Hrun : run = (span p s).1) by (destruct (span p s).1; by simplify_eq).
  subst run. split; apply span_satisfies; intros x; unfold p;
    destruct (is_char x backslash), (is_char x "s"); done.
Qed.

(** C9 (the code departs from the claim): the class that should stop an
    unquoted path at white space stops it at the letter [s] or at a
    backslash instead, so the directory is cut short or runs on into the
    following arguments. *)
Theorem C9_unquoted_path_is_not_taken_whole `{Host} (cwd : string) :
  resultsDir_of "dotnet test --results-directory ./deepseek_test_results" cwd = "./deep" /\
  resultsDir_of "dotnet test --results-directory ./TestResults" cwd = "./Te" /\
  resultsDir_of "dotnet test --results-directory out --logger trx" cwd = "out --logger trx" /\
  forall s run, bare s = Some run -> occurs "s" run = false /\ occurs backslash run = false.
Proof.
  split; [reflexivity|]. split; [reflexivity|]. split; [reflexivity|].
  exact bare_stops_at_s.
Qed.

(** *** The file system *)

Lemma entry_set_entry (c c' : string) (x : Node) (es : list (string * Node)) :
  entry c' (set_entry c x es) = if String.eqb c c' then Some x else entry c' es.
Proof.
  induction es as [|[n y] r IH]; simpl.
  - destruct (String.eqb_spec c c') as [->|Hn]; [done|].
    by destruct (String.eqb_spec c c').
  - destruct (String.eqb_spec n c) as [->|Hn]; simpl.
    + destruct (String.eqb_spec c c') as [->|Hc]; [done|]. done.
    + destruct (String.eqb_spec n c') as [->|Hc].
      * by destruct (String.eqb_spec c c') as [->|].
      * exact IH.
Qed.

Lemma set_entry_same (c : string) (x : Node) (es : list (string * Node)) :
  entry c es = Some x -> set_entry c x es = es.
Proof.
  induction es as [|[n y] r IH]; simpl; [done|].
  destruct (String.eqb_spec n c) as [->|Hn].
  - by intros [= ->].
  - intros E. by rewrite IH.
Qed.

Lemma mkdir_p_is_dir (t : Z) (p : list string) (n n' : Node) :
  mkdir_p t p n = Some n' -> is_dir n'.
Proof.
  destruct n as [|t0 es]; [by destruct p|].
  destruct p as [|c p']; simpl.
  - by intros [= <-].
  - destruct (entry c es) as [child|].
    + destruct (mkdir_p t p' child); simpl; [|done]. by intros [= <-].
    + destruct (mkdir_p t p' (Dir t [])); simpl; [|done]. by intros [= <-].
Qed.

(** What existed before [mkdir] still exists, a file with its content
    and its modification time. *)
Lemma mkdir_p_keeps (t : Z) (p : list string) :
  forall (n n' : Node) (q : list string) (x : Node),
    mkdir_p t p n = Some n' ->
    lookup q n = Some x ->
    exists x', lookup q n' = Some x' /\ same_kind x x'.
Proof.
  induction p as [|c p' IH]; intros n n' q x Hm Hq.
  - destruct n as [|t0 es]; [done|]. injection Hm as <-.
    exists x. split; [done|]. by destruct x.
  - destruct n as [|t0 es]; [done|].
    pose proof (mkdir_p_is_dir _ _ _ _ Hm) as Hd. simpl in Hm.
    destruct q as [|c0 q'].
    { injection Hq as <-. exists n'. split; [done|]. by destruct n'. }
    simpl in Hq.
    destruct (entry c0 es) as [ch|] eqn:Ec0; simpl in Hq; [|done].
    destruct (entry c es) as [child|] eqn:Ec.
    + destruct (mkdir_p t p' child) as [child'|] eqn:Em; simpl in Hm; [|done].
      injection Hm as <-. simpl. rewrite entry_set_entry.
      destruct (String.eqb_spec c c0) as [->|Hne]; simpl.
      * rewrite Ec in Ec0. injection Ec0 as ->. by eapply IH.
      * rewrite Ec0; simpl. exists x. split; [done|]. by destruct x.
    + destruct (mkdir_p t p' (Dir t [])) as [child'|] eqn:Em; simpl in Hm; [|done].
      injection Hm as <-. simpl. rewrite entry_set_entry.
      destruct (String.eqb_spec c c0) as [->|Hne]; simpl.
      * by rewrite Ec in Ec0.
      * rewrite Ec0; simpl. exists x. split; [done|]. by destruct x.
Qed.

(** What [mkdir] adds is directories on the path it was given. *)
Lemma mkdir_p_adds (t : Z) (p : list string) :
  forall (n n' : Node) (q : list string) (x : Node),
    mkdir_p t p n = Some n' ->
    lookup q n = None ->
    lookup q n' = Some x ->
    is_dir x /\ q `prefix_of` p.
Proof.
  induction p as [|c p' IH]; intros n n' q x Hm Hq Hq'.
  - destruct n as [|t0 es]; [done|]. injection Hm as <-. by rewrite Hq in Hq'.
  - destruct n as [|t0 es]; [done|]. simpl in Hm.
    destruct q as [|c0 q']; [done|]. simpl in Hq.
    destruct (entry c es) as [child|] eqn:Ec.
    + destruct (mkdir_p t p' child) as [child'|] eqn:Em; simpl in Hm; [|done].
      injection Hm as <-. simpl in Hq'. rewrite entry_set_entry in Hq'.
      destruct (String.eqb_spec c c0) as [->|Hne]; simpl in Hq'.
      * rewrite Ec in Hq; simpl in Hq.
        destruct (IH _ _ _ _ Em Hq Hq') as [Hd Hp].
        split; [done|]. by apply prefix_cons.
      * by rewrite Hq in Hq'.
    + destruct (mkdir_p t p' (Dir t [])) as [child'|] eqn:Em; simpl in Hm; [|done].
      injection Hm as <-. simpl in Hq'. rewrite entry_set_entry in Hq'.
      destruct (String.eqb_spec c c0) as [->|Hne]; simpl in Hq'.
      * destruct q' as [|c1 q''].
        { injection Hq' as <-. split; [by eapply mkdir_p_is_dir|].
          apply prefix_cons, prefix_nil. }
        destruct (IH _ _ (c1 :: q'') _ Em eq_refl Hq') as [Hd Hp].
        split; [done|]. by apply prefix_cons.
      * by rewrite Hq in Hq'.
Qed.

(** On a directory that exists, [mkdir] changes nothing. *)
Lemma mkdir_p_existing (t : Z) (p : list string) :
  forall (n : Node) (t0 : Z) (es : list (string * Node)),
    lookup p n = Some (Dir t0 es) -> mkdir_p t p n = Some n.
Proof.
  induction p as [|c p' IH]; intros n t0 es Hl.
  - injection Hl as ->. done.
  - destruct n as [|t1 es1]; [done|]. simpl in *.
    destruct (entry c es1) as [child|] eqn:Ec; simpl in Hl; [|done].
    rewrite (IH _ _ _ Hl); simpl. by rewrite set_entry_same.
Qed.

(** Nor does it change anything on the way to a directory that exists. *)
Lemma mkdir_p_existing_take (t : Z) (p : list string) :
  forall (k : nat) (n : Node) (t0 : Z) (es : list (string * Node)),
    lookup p n = Some (Dir t0 es) -> mkdir_p t (take k p) n = Some n.
Proof.
  induction p as [|c p' IH]; intros k n t0 es Hl.
  - rewrite take_nil. injection Hl as ->. done.
  - destruct n as [|t1 es1]; [done|]. destruct k as [|k]; [done|]. simpl in *.
    destruct (entry c es1) as [child|] eqn:Ec; simpl in Hl; [|done].
    rewrite (IH _ _ _ _ Hl); simpl. by rewrite set_entry_same.
Qed.

Lemma mkdir_reach_prefix `{Host} (dir : string) :
  mkdir_reach dir `prefix_of` resolve dir.
Proof.
  unfold mkdir_reach. destruct (mkdir_error dir) as [k|]; [|done].
  apply prefix_take.
Qed.

Lemma mkdir_reach_existing `{Host} (dir : string) (fs : Node) (t0 : Z)
    (es : list (string * Node)) :
  lookup (resolve dir) fs = Some (Dir t0 es) ->
  mkdir_p now (mkdir_reach dir) fs = Some fs.
Proof.
  intros Hl. unfold mkdir_reach. destruct (mkdir_error dir) as [k|].
  - by eapply mkdir_p_existing_take.
  - by eapply mkdir_p_existing.
Qed.

(** C10 (the claim as stated fails): before the command is started
    [runTests] itself creates the results directory, so the file system
    after a run is not the one that the command alone leaves behind. *)
Lemma C10_counterexample : ~ only_the_command_writes.
Proof.
  intros Hclaim.
  specialize (Hclaim (idle (Some 0)) "dotnet test" "/w" empty_root []).
  vm_compute in Hclaim. discriminate Hclaim.
Qed.

(** C10 (amended): the only change that the core makes to the file
    system is the [mkdir] of [ensureDirectory] before the command starts:
    it adds nothing but missing directories on the path of the results
    directory, keeps every file with its content and modification time,
    and does nothing when the directory exists; after the command has
    run, the directory is only listed and its files only read, so the
    final file system is the one that the command left. *)
Theorem C10_core_only_makes_the_directory `{Host} (command cwd : string) (fs : Node)
    (out : list string) :
  let dir := resultsDir_of command cwd in
  let fs1 := ensureDirectory dir fs in
  (runTests command cwd fs out).1.2 = (spawn command cwd fs1).2 /\
  (forall p x, lookup p fs = Some x ->
               exists x', lookup p fs1 = Some x' /\ same_kind x x') /\
  (forall p x, lookup p fs = None -> lookup p fs1 = Some x ->
               is_dir x /\ p `prefix_of` resolve dir) /\
  (forall t es, lookup (resolve dir) fs = Some (Dir t es) -> fs1 = fs).
Proof.
  intros dir fs1. split; [|split; [|split]].
  - unfold runTests. fold dir. fold fs1.
    destruct (spawn command cwd fs1) as [[chunks code] fs2].
    by destruct (on_close _ _ _ _).
  - intros p x Hl. subst fs1. unfold ensureDirectory.
    destruct (mkdir_p now (mkdir_reach dir) fs) as [n'|] eqn:Em; simpl.
    + by eapply mkdir_p_keeps.
    + exists x. split; [done|]. by destruct x.
  - intros p x Hl Hl'. subst fs1. unfold ensureDirectory in Hl'.
    destruct (mkdir_p now (mkdir_reach dir) fs) as [n'|] eqn:Em; simpl in Hl'.
    + destruct (mkdir_p_adds _ _ _ _ _ _ Em Hl Hl') as [Hd Hp].
      split; [done|]. etrans; [exact Hp|]. apply mkdir_reach_prefix.
    + by rewrite Hl in Hl'.
  - intros t es Hl. subst fs1. unfold ensureDirectory.
    by rewrite (mkdir_reach_existing _ _ _ _ Hl).
Qed.

Lemma C10_core_only_makes_the_directory_witness :
  lookup ["w"; "deepseek_test_results"] empty_root = None /\
  lookup ["w"; "deepseek_test_results"]
    (@ensureDirectory (idle (Some 0)) (@resultsDir_of (idle (Some 0)) "dotnet test" "/w")
       empty_root)
  = Some (Dir 1700000000000 []) /\
  is_dir (Dir 1700000000000 []) /\
  ["w"; "deepseek_test_results"]
    `prefix_of` @resolve (idle (Some 0)) (@resultsDir_of (idle (Some 0)) "dotnet test" "/w").
Proof.
  split; [reflexivity|]. split; [reflexivity|].
  apply (proj1 (proj2 (proj2 (@C10_core_only_makes_the_directory (idle (Some 0))
                                 "dotnet test" "/w" empty_root [])))
           ["w"; "deepseek_test_results"] (Dir 1700000000000 [])); reflexivity.
Defined.

End RunnerProofs.

(** ** Properties of the client *)
Module LlmProofs.

Import Js Llm LlmDocumented Scenario.

(** *** Retry *)

(** C5: [callWithRetry] makes at most three requests, one after the
    other; a failed first or second attempt is logged and followed by a
    wait of 500 ms, then 1000 ms; the first success is returned at once
    (after two failures, with no fourth request); the error of a failed
    third attempt is the one thrown. *)
Theorem C5_retry_schedule (opts : LlmClientOptions) `{Network} (prompt : string)
    (w : World) :
  let n := requests w in
  let after (k : nat) (d : Z) (tr : list Event) :=
    {| requests := k + n; clock := clock w + d; trace := trace w ++ tr |} in
  match call opts n prompt, call opts (1 + n) prompt, call opts (2 + n) prompt with
  | (inr r, d1), _, _ =>
      callWithRetry opts prompt w = (inr r, after 1%nat d1 [Attempt n])
  | (inl e1, d1), (inr r, d2), _ =>
      callWithRetry opts prompt w
      = (inr r,
         after 2%nat (d1 + 500 + d2)
           [Attempt n; Log ("[DeepSeek] Attempt 1 failed: " +:+ err_message e1);
            Sleep 500; Attempt (1 + n)])
  | (inl e1, d1), (inl e2, d2), (inr r, d3) =>
      callWithRetry opts prompt w
      = (inr r,
         after 3%nat (d1 + 500 + d2 + 1000 + d3)
           [Attempt n; Log ("[DeepSeek] Attempt 1 failed: " +:+ err_message e1);
            Sleep 500; Attempt (1 + n);
            Log ("[DeepSeek] Attempt 2 failed: " +:+ err_message e2);
            Sleep 1000; Attempt (2 + n)])
  | (inl e1, d1), (inl e2, d2), (inl e3, d3) =>
      callWithRetry opts prompt w
      = (inl e3,
         after 3%nat (d1 + 500 + d2 + 1000 + d3)
           [Attempt n; Log ("[DeepSeek] Attempt 1 failed: " +:+ err_message e1);
            Sleep 500; Attempt (1 + n);
            Log ("[DeepSeek] Attempt 2 failed: " +:+ err_message e2);
            Sleep 1000; Attempt (2 + n);
            Log ("[DeepSeek] Attempt 3 failed: " +:+ err_message e3)])
  end.
Proof.
  intros n after. subst after. unfold callWithRetry.
  change (Z.to_nat attempts) with 3%nat.
  change (1 + n)%nat with (S n). change (2 + n)%nat with (S (S n)).
  change (3 + n)%nat with (S (S (S n))).
  destruct (call opts n prompt) as [[e1|r1] d1] eqn:E1;
    destruct (call opts (S n) prompt) as [[e2|r2] d2] eqn:E2;
    destruct (call opts (S (S n)) prompt) as [[e3|r3] d3] eqn:E3;
    cbn [retry_loop requests clock trace]; fold n; rewrite ?E1;
    cbn [retry_loop requests clock trace]; rewrite ?E2;
    cbn [retry_loop requests clock trace]; rewrite ?E3;
    change (1 =? attempts) with false; change (1 + 1 =? attempts) with false;
    change (1 + 1 + 1 =? attempts) with true; cbv iota;
    change (500 * 2 ^ (1 - 1)) with 500; change (500 * 2 ^ (1 + 1 - 1)) with 1000;
    rewrite <- ?app_assoc; cbn [app];
    try reflexivity; f_equal; f_equal; lia.
Qed.

Lemma C5_retry_schedule_witness :
  @callWithRetry options flaky "hi" world0
  = (inr (mkGenerateResult "class A {}" hello),
     {| requests := 3;
        clock := 1625;
        trace := [Attempt 0;
                  Log "[DeepSeek] Attempt 1 failed: LLM request failed: 503 Service Unavailable";
                  Sleep 500; Attempt 1;
                  Log "[DeepSeek] Attempt 2 failed: LLM request failed: 503 Service Unavailable";
                  Sleep 1000; Attempt 2] |}).
Proof. apply (C5_retry_schedule options (H := flaky) "hi" world0). Defined.

(** *** Timeout *)

(** C8 (the claim as stated fails): the message of the error thrown on
    a timeout is not [request timed out]. *)
Lemma C8_counterexample : ~ timeout_message_is_request_timed_out.
Proof.
  intros Hclaim.
  destruct (Hclaim options silent 0%nat "hi" eq_refl) as (e & He & Hm).
  vm_compute in He. injection He as <-. discriminate Hm.
Qed.

(** The delay of a timer is between 1 and [TIMEOUT_MAX]; it is the delay
    asked for when that lies in this range, and 1 otherwise. *)
Lemma timer_delay_range (ms : Z) :
  1 <= timer_delay ms <= TIMEOUT_MAX /\
  timer_delay ms <= Z.max 1 ms /\
  (1 <= ms <= TIMEOUT_MAX -> timer_delay ms = ms).
Proof.
  unfold timer_delay, TIMEOUT_MAX.
  destruct (Z.ltb_spec ms 1); destruct (Z.ltb_spec 2147483647 ms); simpl; lia.
Qed.

Lemma late_earlier (t t' : Z) (r : Remote) :
  t' <= t -> late t r = true -> late t' r = true.
Proof.
  intros Ht. destruct r as [h resp b bd|a e|]; simpl; [| |done].
  - intros Hl. apply orb_prop in Hl as [Hl|Hl].
    + apply Z.ltb_lt in Hl. apply orb_true_intro. left. apply Z.ltb_lt. lia.
    + apply andb_prop in Hl as [Hok Hl]. apply Z.ltb_lt in Hl.
      apply orb_true_intro. right. rewrite Hok. apply Z.ltb_lt. lia.
  - intros Hl. apply Z.ltb_lt in Hl. apply Z.ltb_lt. lia.
Qed.

(** An attempt that still waits when its timer fires is aborted then. *)
Lemma late_for_the_timer (opts : LlmClientOptions) `{Network} (n : nat) (prompt : string) :
  late (timer_delay (timeoutMs opts)) (remote n (request_of opts prompt)) = true ->
  call opts n prompt
  = (inl (new_Error "LLM request timed out"), timer_delay (timeoutMs opts)).
Proof.
  unfold call, try_call, late.
  set (t := timer_delay (timeoutMs opts)).
  destruct (remote n (request_of opts prompt)) as [h resp b bd|a e|]; intros Hl.
  - destruct (Z.ltb_spec h t) as [Hh|Hh]; [|done].
    destruct (Z.ltb_spec t h) as [Hh'|_]; [lia|].
    simpl in Hl. apply andb_prop in Hl as [Hok Hb].
    unfold ensureSuccess. rewrite Hok.
    apply Z.ltb_lt in Hb.
    destruct (Z.ltb_spec b t) as [Hb'|_]; [lia|]. done.
  - apply Z.ltb_lt in Hl.
    destruct (Z.ltb_spec a t) as [Ha|_]; [lia|]. done.
  - done.
Qed.

(** C8 (amended): an attempt that outlasts the timeout (and the one
    millisecond that is the least delay of a timer) is aborted when the
    timer fires and fails with an [Error] whose message is
    [LLM request timed out].  The timer fires [timeoutMs] after the start
    of the attempt when [timeoutMs] is between 1 and 2147483647, and
    after 1 ms otherwise, so never later than the timeout or 1 ms. *)
Theorem C8_timeout_aborts_the_attempt (opts : LlmClientOptions) `{Network}
    (n : nat) (prompt : string) :
  late (Z.max 1 (timeoutMs opts)) (remote n (request_of opts prompt)) = true ->
  call opts n prompt
  = (inl (new_Error "LLM request timed out"), timer_delay (timeoutMs opts)) /\
  timer_delay (timeoutMs opts) <= Z.max 1 (timeoutMs opts) /\
  (1 <= timeoutMs opts <= 2147483647 -> timer_delay (timeoutMs opts) = timeoutMs opts).
Proof.
  intros Hl. pose proof (timer_delay_range (timeoutMs opts)) as (_ & Hle & Heq).
  split; [|by split].
  apply late_for_the_timer. by eapply late_earlier.
Qed.

Lemma C8_timeout_aborts_the_attempt_witness :
  late (Z.max 1 (timeoutMs options)) (@remote silent 0%nat (request_of options "hi")) = true /\
  @call options silent 0%nat "hi" = (inl (new_Error "LLM request timed out"), 30000) /\
  late (Z.max 1 (timeoutMs (Cases.with_timeout 4294967296)))
       (@remote silent 0%nat (request_of (Cases.with_timeout 4294967296) "hi")) = true /\
  @call (Cases.with_timeout 4294967296) silent 0%nat "hi"
  = (inl (new_Error "LLM request timed out"), 1).
Proof.
  split; [reflexivity|]. split.
  - apply (proj1 (C8_timeout_aborts_the_attempt options (H := silent) 0%nat "hi" eq_refl)).
  - split; [reflexivity|].
    apply (proj1 (C8_timeout_aborts_the_attempt (Cases.with_timeout 4294967296) (H := silent)
                    0%nat "hi" eq_refl)).
Defined.

(** *** The gate *)

Lemma capacity_clamped (opts : LlmClientOptions) :
  capacity opts = if maxConcurrentRequests opts <? 1 then 1 else maxConcurrentRequests opts.
Proof.
  unfold capacity, or_one.
  destruct (Z.eqb_spec (maxConcurrentRequests opts) 0) as [->|Hn]; [done|].
  destruct (Z.ltb_spec (maxConcurrentRequests opts) 1); lia.
Qed.

Lemma gate_inv_init (opts : LlmClientOptions) : gate_inv opts (init opts).
Proof.
  unfold gate_inv, init, client_semaphore, new_Semaphore, capacity; simpl.
  repeat split; try done; lia.
Qed.

Lemma without_length (id : nat) (l : list nat) :
  id ∈ l -> S (length (without id l)) = length l.
Proof.
  induction l as [|x r IH]; simpl; intros Hin.
  - by apply elem_of_nil in Hin.
  - destruct (Nat.eqb_spec x id) as [->|Hne]; [done|].
    apply elem_of_cons in Hin as [->|Hin]; [done|].
    simpl. by rewrite IH.
Qed.

Lemma gate_inv_step (opts : LlmClientOptions) (a : Action) (g g' : Gate) :
  gate_inv opts g -> step opts a g = Some g' -> gate_inv opts g'.
Proof.
  intros (H0 & Hsum & Hq & Hfifo) Hs.
  destruct a as [id|id r]; simpl in Hs.
  - destruct (decide (id ∈ arrived g)); [done|].
    unfold generate_start, acquire in Hs.
    destruct (apiUrl opts); [by injection Hs as <-|].
    destruct (apiKey opts); [by injection Hs as <-|].
    destruct (Z.ltb_spec 0 (counter (sem g))) as [Hc|Hc];
      injection Hs as <-; unfold gate_inv; simpl.
    + assert (Hnil : queue (sem g) = []).
      { destruct (queue (sem g)) eqn:E; [done|]. assert (counter (sem g) = 0) by by apply Hq. lia. }
      rewrite Hfifo, Hnil, !app_nil_r, length_app. simpl.
      repeat split; try done; lia.
    + rewrite Hfifo, app_assoc. repeat split; try done; lia.
  - destruct (decide (id ∈ running g)) as [Hin|]; [|done].
    apply without_length in Hin.
    unfold release in Hs.
    destruct (queue (sem g)) as [|next rest] eqn:E;
      injection Hs as <-; unfold gate_inv; simpl.
    + rewrite Hfifo, app_nil_r. repeat split; try done; lia.
    + assert (counter (sem g) = 0) by by apply Hq.
      rewrite Hfifo, <- app_assoc, length_app. simpl.
      repeat split; try done; lia.
Qed.

Lemma gate_inv_run (opts : LlmClientOptions) (acts : list Action) :
  forall g g', gate_inv opts g -> run opts acts g = Some g' -> gate_inv opts g'.
Proof.
  induction acts as [|a rest IH]; intros g g' Hi Hr; simpl in Hr.
  - by injection Hr as <-.
  - destruct (step opts a g) as [g1|] eqn:Es; simpl in Hr; [|done].
    eapply IH; [|done]. by eapply gate_inv_step.
Qed.

(** A release resumes the caller that has waited longest. *)
Lemma release_resumes_head {W : Type} (s : Semaphore W) :
  (release s).1 = head (queue s) /\ queue (release s).2 = tail (queue s).
Proof. unfold release. by destruct (queue s). Qed.

(** What a call of [generate] does to the gate of a configured client:
    it takes a slot when the semaphore has one, and joins the end of the
    queue otherwise. *)
Lemma step_call (opts : LlmClientOptions) (id : nat) (g g' : Gate) :
  apiUrl opts <> "" -> apiKey opts <> "" ->
  step opts (Call id) g = Some g' ->
  if 0 <? counter (sem g)
  then running g' = running g ++ [id] /\ admitted g' = admitted g ++ [id] /\
       queue (sem g') = queue (sem g) /\ counter (sem g') = counter (sem g) - 1
  else running g' = running g /\ admitted g' = admitted g /\
       queue (sem g') = queue (sem g) ++ [id] /\ counter (sem g') = counter (sem g).
Proof.
  intros Hu Hk Hs. simpl in Hs.
  destruct (decide (id ∈ arrived g)); [done|].
  unfold generate_start, acquire in Hs.
  destruct (apiUrl opts); [done|]. destruct (apiKey opts); [done|].
  destruct (0 <? counter (sem g)); by injection Hs as <-.
Qed.

(** What the settling of a call does to the gate: its slot goes to the
    caller at the head of the queue, if there is one. *)
Lemma step_settle (opts : LlmClientOptions) (id : nat) (r : Error + GenerateResult)
    (g g' : Gate) :
  step opts (Settle id r) g = Some g' ->
  id ∈ running g /\
  match queue (sem g) with
  | next :: rest =>
      running g' = without id (running g) ++ [next] /\
      admitted g' = admitted g ++ [next] /\
      queue (sem g') = rest /\ counter (sem g') = counter (sem g)
  | [] =>
      running g' = without id (running g) /\ admitted g' = admitted g /\
      queue (sem g') = [] /\ counter (sem g') = counter (sem g) + 1
  end.
Proof.
  intros Hs. simpl in Hs.
  destruct (decide (id ∈ running g)) as [Hin|]; [|done].
  split; [done|]. unfold release in Hs.
  destruct (queue (sem g)) as [|next rest]; injection Hs as <-; simpl;
    repeat split; lia.
Qed.

(** C6: the semaphore of a client starts with as many slots as the
    configured ceiling, or with one when that is below 1.  Whatever calls
    are made and however they settle: the free slots and the calls that
    hold one add up to that number, so at most that many calls hold a
    slot at a time, and a call waits only while all of them are taken; a
    call that arrives takes a slot at once when one is free and joins
    the end of the queue otherwise; a call that settles hands its slot
    to the call that has waited longest; and so the calls got their
    slots in the order in which they reached the gate, the ones still
    waiting coming next in that order. *)
Theorem C6_admission_bound_and_fifo (opts : LlmClientOptions) (acts : list Action)
    (g : Gate) :
  run opts acts (init opts) = Some g ->
  let ceiling := if maxConcurrentRequests opts <? 1 then 1
                 else maxConcurrentRequests opts in
  (counter (sem (init opts)) = ceiling /\ capacity opts = ceiling /\ 1 <= ceiling) /\
  (0 <= counter (sem g) /\
   counter (sem g) + Z.of_nat (length (running g)) = ceiling /\
   Z.of_nat (length (running g)) <= ceiling) /\
  (queue (sem g) <> [] -> Z.of_nat (length (running g)) = ceiling) /\
  arrived g = admitted g ++ queue (sem g) /\
  (forall id g', apiUrl opts <> "" -> apiKey opts <> "" ->
     step opts (Call id) g = Some g' ->
     if decide (Z.of_nat (length (running g)) < ceiling)
     then running g' = running g ++ [id] /\ admitted g' = admitted g ++ [id] /\
          queue (sem g') = queue (sem g)
     else running g' = running g /\ admitted g' = admitted g /\
          queue (sem g') = queue (sem g) ++ [id]) /\
  (forall id r g', step opts (Settle id r) g = Some g' ->
     match queue (sem g) with
     | next :: rest =>
         running g' = without id (running g) ++ [next] /\
         admitted g' = admitted g ++ [next] /\ queue (sem g') = rest
     | [] =>
         running g' = without id (running g) /\ admitted g' = admitted g /\
         queue (sem g') = []
     end).
Proof.
  intros Hr ceiling.
  destruct (gate_inv_run _ _ _ _ (gate_inv_init opts) Hr) as (H0 & Hsum & Hq & Hfifo).
  pose proof (capacity_clamped opts) as Hc. fold ceiling in Hc.
  assert (H1 : 1 <= ceiling).
  { subst ceiling. destruct (Z.ltb_spec (maxConcurrentRequests opts) 1); lia. }
  split; [|split; [|split; [|split; [|split]]]].
  - split; [|by split]. rewrite <- Hc. reflexivity.
  - split; [done|]. split; lia.
  - intros Hne. specialize (Hq Hne). lia.
  - done.
  - intros id g' Hu Hk Hs. pose proof (step_call _ _ _ _ Hu Hk Hs) as Hcall.
    destruct (Z.ltb_spec 0 (counter (sem g))) as [Hpos|Hpos];
      destruct (decide (Z.of_nat (length (running g)) < ceiling)) as [Hlt|Hge];
      try lia; by destruct Hcall as (? & ? & ? & _).
  - intros id r g' Hs. destruct (step_settle _ _ _ _ _ Hs) as [_ Hsettle].
    destruct (queue (sem g)); by destruct Hsettle as (? & ? & ? & _).
Qed.

Lemma C6_admission_bound_and_fifo_witness :
  run options [Call 1; Call 2; Call 3; Call 4; Settle 2 (inl AbortError); Call 5]%nat
      (init options)
  = Some {| sem := {| queue := [4; 5]%nat; counter := 0 |};
            running := [1; 3]%nat;
            arrived := [1; 2; 3; 4; 5]%nat;
            admitted := [1; 2; 3]%nat |} /\
  counter (sem (init options)) = 2 /\
  Z.of_nat (length [1; 3]%nat) = 2 /\
  [1; 2; 3; 4; 5]%nat = [1; 2; 3]%nat ++ [4; 5]%nat /\
  run (Cases.with_ceiling (-3)) [Call 1; Call 2]%nat (init (Cases.with_ceiling (-3)))
  = Some {| sem := {| queue := [2]%nat; counter := 0 |};
            running := [1]%nat;
            arrived := [1; 2]%nat;
            admitted := [1]%nat |} /\
  counter (sem (init (Cases.with_ceiling (-3)))) = 1 /\
  Z.of_nat (length [1]%nat) = 1.
Proof.
  split; [reflexivity|].
  pose proof (C6_admission_bound_and_fifo options
                [Call 1; Call 2; Call 3; Call 4; Settle 2 (inl AbortError); Call 5]%nat
                _ eq_refl) as Hgate.
  pose proof (C6_admission_bound_and_fifo (Cases.with_ceiling (-3)) [Call 1; Call 2]%nat
                _ eq_refl) as Hone.
  cbv zeta in Hgate, Hone.
  destruct Hgate as ((Hinit & _) & _ & Hfull & Hfifo & _).
  destruct Hone as ((Hinit1 & _) & _ & Hfull1 & _).
  split; [exact Hinit|]. split; [exact (Hfull ltac:(discriminate))|].
  split; [exact Hfifo|]. split; [reflexivity|].
  split; [exact Hinit1 | exact (Hfull1 ltac:(discriminate))].
Defined.

(** *** generate *)

(** C7: with no endpoint or no credential, [generate] throws its
    configuration error before it reaches the semaphore, which stays as
    it was, and before any request; otherwise the slot that the call got
    is given back when the call settles, with a result or with an error
    alike: a call that found a slot leaves the semaphore as it found it,
    and a call that had to wait runs the same [release] once resumed. *)
Theorem C7_config_check_and_release (opts : LlmClientOptions) `{Network} {W : Type}
    (me : W) (prompt : string) (w : World) (s : Semaphore W) :
  (apiUrl opts = "" \/ apiKey opts = "" ->
   exists e, generate opts me prompt w s = (Thrown e, w, s) /\
             (e = new_Error "API URL is not configured (deepseekCSharp.assistant.apiUrl)." \/
              e = new_Error "API key is not configured (deepseekCSharp.assistant.apiKey).")) /\
  (apiUrl opts <> "" -> apiKey opts <> "" ->
   (0 < counter s -> queue s = [] ->
    generate opts me prompt w s
    = (match (callWithRetry opts prompt w).1 with
       | inl e => Thrown e
       | inr r => Returned r
       end, (callWithRetry opts prompt w).2, s)) /\
   (counter s <= 0 ->
    generate opts me prompt w s
    = (Pending, w, {| queue := queue s ++ [me]; counter := counter s |})) /\
   (forall (w1 : World) (s1 : Semaphore W),
      generate_resume opts prompt w1 s1
      = ((callWithRetry opts prompt w1).1, (callWithRetry opts prompt w1).2,
         (release s1).1, (release s1).2))).
Proof.
  split.
  - intros Hmissing. unfold generate, generate_start.
    destruct (apiUrl opts) as [|c u] eqn:Eu.
    + eexists. split; [reflexivity|]. by left.
    + destruct Hmissing as [?|Hk]; [done|]. rewrite Hk.
      eexists. split; [reflexivity|]. by right.
  - intros Hu Hk. unfold generate, generate_start, generate_resume.
    destruct (apiUrl opts) as [|c u]; [done|].
    destruct (apiKey opts) as [|c' k]; [done|].
    split; [|split].
    + intros Hc Hq. unfold acquire.
      destruct (Z.ltb_spec 0 (counter s)) as [_|?]; [|lia].
      destruct (callWithRetry opts prompt w) as [r w'].
      unfold release; simpl. rewrite Hq.
      destruct s as [q c0]; simpl in *. subst q.
      replace (c0 - 1 + 1) with c0 by lia. done.
    + intros Hc. unfold acquire.
      destruct (Z.ltb_spec 0 (counter s)) as [?|_]; [lia|]. done.
    + intros w1 s1.
      destruct (callWithRetry opts prompt w1) as [r w'].
      by destruct (release s1).
Qed.

Lemma C7_config_check_and_release_witness :
  (apiUrl no_key = "" \/ apiKey no_key = "") /\
  apiUrl options <> "" /\ apiKey options <> "" /\
  0 < counter (@client_semaphore nat options) /\
  (exists e, @generate no_key silent nat 7%nat "hi" world0 (client_semaphore no_key)
             = (Thrown e, world0, client_semaphore no_key)) /\
  (@generate options silent nat 7%nat "hi" world0 (client_semaphore options)).2
  = client_semaphore options.
Proof.
  assert (Hmissing : apiUrl no_key = "" \/ apiKey no_key = "") by (right; reflexivity).
  assert (Hu : apiUrl options <> "") by discriminate.
  assert (Hk : apiKey options <> "") by discriminate.
  assert (Hc : 0 < counter (@client_semaphore nat options)) by reflexivity.
  split; [exact Hmissing|]. split; [exact Hu|]. split; [exact Hk|].
  split; [exact Hc|]. split.
  - destruct (proj1 (C7_config_check_and_release no_key (H := silent) 7%nat "hi" world0
                       (client_semaphore no_key)) Hmissing) as (e & He & _).
    by exists e.
  - rewrite (proj1 (proj2 (C7_config_check_and_release options (H := silent) 7%nat "hi"
                             world0 (client_semaphore options)) Hu Hk) Hc eq_refl).
    reflexivity.
Defined.

End LlmProofs.

(** ** Further properties of the test runner *)
Module RunnerExtras.

Import Js TestRunner Documented Scenario Text.

(** *** Locating the artifact *)

Lemma insert_desc_length (x : string * Z) (l : list (string * Z)) :
  length (insert_desc x l) = S (length l).
Proof.
  induction l as [|y r IH]; simpl; [done|].
  destruct (snd y <=? snd x); simpl; by rewrite ?IH.
Qed.

Lemma sort_desc_length (l : list (string * Z)) : length (sort_desc l) = length l.
Proof.
  induction l as [|x l IH]; simpl; [done|].
  by rewrite insert_desc_length, IH.
Qed.

(** The head of the sorted array is the first of the latest: what stood
    before it is strictly older, what stood after it is not newer. *)
Lemma sort_desc_head (l : list (string * Z)) (h : string * Z) (r : list (string * Z)) :
  sort_desc l = h :: r ->
  exists l1 l2, l = l1 ++ h :: l2 /\
                Forall (fun y => snd y < snd h) l1 /\
                Forall (fun y => snd y <= snd h) l2.
Proof.
  revert h r. induction l as [|x l IH]; intros h r; simpl; [done|].
  destruct (sort_desc l) as [|h0 r0] eqn:Es.
  - assert (l = []) as ->.
    { apply (f_equal length) in Es. rewrite sort_desc_length in Es.
      by destruct l. }
    simpl. intros [= <- <-]. exists [], []. by repeat split.
  - destruct (IH h0 r0 eq_refl) as (l1 & l2 & -> & H1 & H2).
    simpl. destruct (Z.leb_spec (snd h0) (snd x)) as [Hle|Hlt].
    + intros [= <- <-]. exists [], (l1 ++ h0 :: l2). split; [done|].
      split; [done|]. apply Forall_app. split.
      * eapply Forall_impl; [exact H1|]. simpl. lia.
      * constructor; [done|]. eapply Forall_impl; [exact H2|]. simpl. lia.
    + intros [= <- _]. exists (x :: l1), l2. split; [done|].
      split; [|done]. by constructor.
Qed.

Lemma Forall2_app_inv_r_cons {A B} (P : A -> B -> Prop) (l : list A)
    (k1 : list B) (y : B) (k2 : list B) :
  Forall2 P l (k1 ++ y :: k2) ->
  exists l1 x l2, l = l1 ++ x :: l2 /\ Forall2 P l1 k1 /\ P x y /\ Forall2 P l2 k2.
Proof.
  intros HF. apply Forall2_app_inv_r in HF as (l1 & l' & H1 & H2 & ->).
  apply Forall2_cons_inv_r in H2 as (x & l2 & Hx & H2 & ->).
  by exists l1, x, l2.
Qed.

(** X1: when [findLatestTrx] returns a path, it is [path.join] of the
    directory and one of its entries whose lower-cased name ends in
    [.trx]; among such entries, those listed before it are strictly
    older and those listed after it are not newer. *)
Theorem findLatestTrx_first_of_the_latest `{Host} (dir : string) (fs : Node) (p : string) :
  findLatestTrx dir fs = Some p ->
  exists (names before after : list string) (f : string) (t : Z),
    readdir dir fs = Some names /\
    List.filter (fun f => endsWith ".trx" (toLowerCase f)) names = before ++ f :: after /\
    p = path_join dir f /\
    stat_mtimeMs (path_join dir f) fs = Some t /\
    Forall (fun f' => exists t', stat_mtimeMs (path_join dir f') fs = Some t' /\ t' < t) before /\
    Forall (fun f' => exists t', stat_mtimeMs (path_join dir f') fs = Some t' /\ t' <= t) after.
Proof.
  unfold findLatestTrx. intros Hf.
  destruct (readdir dir fs) as [names|] eqn:Er; simpl in Hf; [|done].
  set (trx := List.filter (fun f => endsWith ".trx" (toLowerCase f)) names) in *.
  destruct trx as [|f0 trx0] eqn:Et; [done|]. rewrite <- Et in *. clear Et f0 trx0.
  destruct (mapM _ trx) as [stats|] eqn:Em; simpl in Hf; [|done].
  destruct (sort_desc stats) as [|[f t] r] eqn:Es; [done|].
  injection Hf as <-.
  apply sort_desc_head in Es as (s1 & s2 & -> & H1 & H2).
  apply mapM_Some_1, Forall2_app_inv_r_cons in Em
    as (before & f' & after & Htrx & Hb & Hx & Ha).
  destruct (stat_mtimeMs (path_join dir f') fs) as [t'|] eqn:Est; simpl in Hx; [|done].
  injection Hx as -> ->.
  exists names, before, after, f, t. repeat split; try done.
  - clear -Hb H1. induction Hb as [|x y l k Hxy _ IH]; [done|].
    apply Forall_cons in H1 as [Hy H1]. constructor; [|by apply IH].
    destruct (stat_mtimeMs (path_join dir x) fs) as [tx|]; simpl in Hxy; [|done].
    injection Hxy as <-. by exists tx.
  - clear -Ha H2. induction Ha as [|x y l k Hxy _ IH]; [done|].
    apply Forall_cons in H2 as [Hy H2]. constructor; [|by apply IH].
    destruct (stat_mtimeMs (path_join dir x) fs) as [tx|]; simpl in Hxy; [|done].
    injection Hxy as <-. by exists tx.
Qed.

Lemma findLatestTrx_first_of_the_latest_witness :
  @findLatestTrx (Scenario.idle None) "/w/out" Cases.three_artifacts = Some "/w/out/New.TRX" /\
  exists (names before after : list string) (f : string) (t : Z),
    @readdir (Scenario.idle None) "/w/out" Cases.three_artifacts = Some names /\
    List.filter (fun f => endsWith ".trx" (toLowerCase f)) names = before ++ f :: after /\
    "/w/out/New.TRX" = @path_join (Scenario.idle None) "/w/out" f /\
    @stat_mtimeMs (Scenario.idle None) (@path_join (Scenario.idle None) "/w/out" f)
       Cases.three_artifacts = Some t /\
    Forall (fun f' => exists t', @stat_mtimeMs (Scenario.idle None)
                         (@path_join (Scenario.idle None) "/w/out" f')
                         Cases.three_artifacts = Some t' /\ t' < t) before /\
    Forall (fun f' => exists t', @stat_mtimeMs (Scenario.idle None)
                         (@path_join (Scenario.idle None) "/w/out" f')
                         Cases.three_artifacts = Some t' /\ t' <= t) after.
Proof.
  split; [reflexivity|].
  apply (@findLatestTrx_first_of_the_latest (Scenario.idle None) "/w/out"
           Cases.three_artifacts "/w/out/New.TRX").
  reflexivity.
Defined.

(** X2: [findLatestTrx] returns [undefined] exactly when the directory
    cannot be listed, when no entry has a lower-cased name ending in
    [.trx], or when [stat] fails on one of those entries. *)
Theorem findLatestTrx_undefined_iff `{Host} (dir : string) (fs : Node) :
  findLatestTrx dir fs = None <->
  readdir dir fs = None \/
  exists names,
    readdir dir fs = Some names /\
    (List.filter (fun f => endsWith ".trx" (toLowerCase f)) names = [] \/
     Exists (fun f => stat_mtimeMs (path_join dir f) fs = None)
       (List.filter (fun f => endsWith ".trx" (toLowerCase f)) names)).
Proof.
  unfold findLatestTrx.
  destruct (readdir dir fs) as [names|]; simpl; [|by split; [left|]].
  set (trx := List.filter (fun f => endsWith ".trx" (toLowerCase f)) names).
  destruct trx as [|f0 trx0] eqn:Et.
  { split; [|done]. intros _. right. exists names. split; [done|]. by left. }
  rewrite <- Et. assert (Hne : trx <> []) by by rewrite Et. clear Et f0 trx0.
  destruct (mapM _ trx) as [stats|] eqn:Em; simpl.
  - assert (Hlen : length stats = length trx) by (symmetry; by eapply length_mapM).
    destruct (sort_desc stats) as [|h r] eqn:Es.
    { apply (f_equal length) in Es. rewrite sort_desc_length in Es.
      destruct trx; [done|]. by destruct stats. }
    split; [done|]. intros [|(names' & [= <-] & [Hnil|Hex])]; [done|done|].
    fold trx in Hex. apply mapM_Some_1 in Em. exfalso.
    clear -Em Hex. induction Em as [|x y l k Hxy _ IH]; [by apply Exists_nil in Hex|].
    apply Exists_cons in Hex as [Hx|Hex]; [|by apply IH].
    by rewrite Hx in Hxy.
  - split; [|done]. intros _. right. exists names. split; [done|]. right.
    fold trx. apply mapM_None_1 in Em.
    eapply Exists_impl; [exact Em|]. simpl. intros x Hx.
    by destruct (stat_mtimeMs (path_join dir x) fs).
Qed.

(** *** Making the directory *)

Lemma mkdir_p_creates (t : Z) (p : list string) :
  forall (n n' : Node),
    mkdir_p t p n = Some n' -> exists t' es, lookup p n' = Some (Dir t' es).
Proof.
  induction p as [|c p' IH]; intros n n' Hm.
  - destruct n as [|t0 es]; [done|]. injection Hm as <-. by exists t0, es.
  - destruct n as [|t0 es]; [done|]. simpl in Hm.
    destruct (entry c es) as [child|] eqn:Ec.
    + destruct (mkdir_p t p' child) as [child'|] eqn:Em; simpl in Hm; [|done].
      injection Hm as <-. simpl. rewrite RunnerProofs.entry_set_entry, String.eqb_refl.
      simpl. by eapply IH.
    + destruct (mkdir_p t p' (Dir t [])) as [child'|] eqn:Em; simpl in Hm; [|done].
      injection Hm as <-. simpl. rewrite RunnerProofs.entry_set_entry, String.eqb_refl.
      simpl. by eapply IH.
Qed.

(** [mkdir] fails exactly when a file stands on the path. *)
Lemma mkdir_p_fails_iff (t : Z) (p : list string) :
  forall (n : Node),
    mkdir_p t p n = None <->
    exists q c m, q `prefix_of` p /\ lookup q n = Some (File c m).
Proof.
  induction p as [|c p' IH]; intros n.
  - destruct n as [c0 m0|t0 es]; simpl.
    + split; [|done]. intros _. by exists [], c0, m0.
    + split; [done|]. intros (q & c & m & Hq & Hl).
      apply prefix_nil_inv in Hq as ->. done.
  - destruct n as [c0 m0|t0 es].
    { split; [|done]. intros _. exists [], c0, m0. split; [apply prefix_nil|done]. }
    simpl. destruct (entry c es) as [child|] eqn:Ec.
    + destruct (mkdir_p t p' child) as [child'|] eqn:Em; simpl.
      * split; [done|]. intros (q & c1 & m & Hq & Hl).
        destruct q as [|c2 q']; [done|].
        apply prefix_cons_inv_1 in Hq as Hc. subst c2.
        apply prefix_cons_inv_2 in Hq.
        simpl in Hl. rewrite Ec in Hl. simpl in Hl.
        assert (mkdir_p t p' child = None) by (apply IH; by exists q', c1, m).
        congruence.
      * split; [|done]. intros _.
        apply IH in Em as (q & c1 & m & Hq & Hl).
        exists (c :: q), c1, m. split; [by apply prefix_cons|].
        simpl. by rewrite Ec.
    + destruct (mkdir_p t p' (Dir t [])) as [child'|] eqn:Em; simpl.
      * split; [done|]. intros (q & c1 & m & Hq & Hl).
        destruct q as [|c2 q']; [done|].
        apply prefix_cons_inv_1 in Hq as Hc. subst c2.
        simpl in Hl. by rewrite Ec in Hl.
      * exfalso. apply IH in Em as (q & c1 & m & Hq & Hl).
        destruct q as [|c2 q']; [done|]. done.
Qed.

Lemma lookup_app (a b : list string) :
  forall (n : Node), lookup (a ++ b) n = y ← lookup a n; lookup b y.
Proof.
  induction a as [|c a' IH]; intros n; [done|].
  destruct n as [|t es]; [done|]. simpl.
  destruct (entry c es) as [child|]; simpl; [apply IH|done].
Qed.

(** A [mkdir] that goes through although a file stands further down the
    path changes nothing. *)
Lemma mkdir_p_above_a_file (t : Z) (p q : list string) (n n' : Node) (c : string) (m : Z) :
  (p `prefix_of` q \/ q `prefix_of` p) ->
  lookup q n = Some (File c m) ->
  mkdir_p t p n = Some n' -> n' = n.
Proof.
  intros Hpq Hl Hm.
  assert (Hfree : ~ exists q' c' m', q' `prefix_of` p /\ lookup q' n = Some (File c' m')).
  { intros Hex. apply mkdir_p_fails_iff with (t := t) in Hex. congruence. }
  destruct Hpq as [[r ->]|Hqp]; [|by destruct Hfree; exists q, c, m].
  rewrite lookup_app in Hl.
  destruct (lookup p n) as [[c' m'|t' es]|] eqn:Ep; simpl in Hl; [| |done].
  - destruct Hfree. by exists p, c', m'.
  - rewrite (RunnerProofs.mkdir_p_existing _ _ _ _ _ Ep) in Hm. by injection Hm.
Qed.

(** X3: when the platform refuses nothing and no file stands on its
    path, the directory exists after [ensureDirectory], so that listing
    it finds a directory; when a file stands on its path, [ensureDirectory] leaves the
    file system as it was and the directory cannot be listed; and when
    the platform stops [mkdir] short of a directory that did not exist,
    the error is swallowed and the directory still cannot be listed. *)
Theorem ensureDirectory_outcome `{Host} (dir : string) (fs : Node) :
  (mkdir_error dir = None ->
   (forall q c m, q `prefix_of` resolve dir -> lookup q fs <> Some (File c m)) ->
   exists t es, lookup (resolve dir) (ensureDirectory dir fs) = Some (Dir t es) /\
                readdir dir (ensureDirectory dir fs) = Some (map fst es)) /\
  (forall q c m, q `prefix_of` resolve dir -> lookup q fs = Some (File c m) ->
   ensureDirectory dir fs = fs /\ readdir dir fs = None) /\
  (forall k, mkdir_error dir = Some k -> (k < length (resolve dir))%nat ->
   readdir dir fs = None ->
   readdir dir (ensureDirectory dir fs) = None).
Proof.
  split; [|split].
  - unfold ensureDirectory, readdir, mkdir_reach. intros -> Hfree.
    destruct (mkdir_p now (resolve dir) fs) as [n'|] eqn:Em; simpl.
    + apply mkdir_p_creates in Em as (t' & es & ->). by exists t', es.
    + apply mkdir_p_fails_iff in Em as (q & c & m & Hq & Hl).
      by destruct (Hfree q c m Hq).
  - intros q c m Hq Hl. split.
    + unfold ensureDirectory.
      destruct (mkdir_p now (mkdir_reach dir) fs) as [n'|] eqn:Em; simpl; [|done].
      eapply mkdir_p_above_a_file; [|exact Hl|exact Em].
      eapply prefix_weak_total; [apply RunnerProofs.mkdir_reach_prefix|exact Hq].
    + unfold readdir.
      destruct (lookup (resolve dir) fs) as [[|t es]|] eqn:El; try done.
      assert (mkdir_p now (resolve dir) fs = Some fs)
        by by eapply RunnerProofs.mkdir_p_existing.
      assert (mkdir_p now (resolve dir) fs = None)
        by (apply mkdir_p_fails_iff; by exists q, c, m).
      congruence.
  - intros k Hk Hshort. unfold ensureDirectory, readdir, mkdir_reach. rewrite Hk.
    destruct (mkdir_p now (take k (resolve dir)) fs) as [n'|] eqn:Em; simpl; [|done].
    destruct (lookup (resolve dir) fs) as [[c m|t es]|] eqn:El; [|done|]; intros _.
    + destruct (RunnerProofs.mkdir_p_keeps _ _ _ _ _ _ Em El) as (x' & -> & Hk').
      by destruct x'.
    + destruct (lookup (resolve dir) n') as [x|] eqn:El'; [|done].
      destruct (RunnerProofs.mkdir_p_adds _ _ _ _ _ _ Em El El') as [_ Hp].
      apply prefix_length in Hp. rewrite length_take in Hp. lia.
Qed.

Lemma ensureDirectory_outcome_witness :
  (forall q c m, q `prefix_of` @resolve (Scenario.idle None) "/w/deepseek_test_results" ->
                 lookup q empty_root <> Some (File c m)) /\
  (exists t es,
     lookup (@resolve (Scenario.idle None) "/w/deepseek_test_results")
       (@ensureDirectory (Scenario.idle None) "/w/deepseek_test_results" empty_root)
     = Some (Dir t es) /\
     @readdir (Scenario.idle None) "/w/deepseek_test_results"
       (@ensureDirectory (Scenario.idle None) "/w/deepseek_test_results" empty_root)
     = Some (map fst es)) /\
  ["w"; "out"] `prefix_of` @resolve (Scenario.idle None) "/w/out/results" /\
  lookup ["w"; "out"] Cases.out_is_a_file = Some (File "not a directory" 3) /\
  @ensureDirectory (Scenario.idle None) "/w/out/results" Cases.out_is_a_file
  = Cases.out_is_a_file /\
  @readdir (Scenario.idle None) "/w/out/results" Cases.out_is_a_file = None /\
  @readdir Cases.read_only "/w/out" empty_root = None /\
  @readdir Cases.read_only "/w/out" (@ensureDirectory Cases.read_only "/w/out" empty_root)
  = None.
Proof.
  assert (Hfree : forall q c m,
             q `prefix_of` @resolve (Scenario.idle None) "/w/deepseek_test_results" ->
             lookup q empty_root <> Some (File c m)).
  { intros q c m _. destruct q as [|x q']; [done|]. done. }
  assert (Hp : ["w"; "out"] `prefix_of` @resolve (Scenario.idle None) "/w/out/results")
    by (by exists ["results"]).
  split; [exact Hfree|]. split.
  - exact (proj1 (@ensureDirectory_outcome (Scenario.idle None)
                    "/w/deepseek_test_results" empty_root) eq_refl Hfree).
  - split; [exact Hp|]. split; [reflexivity|].
    destruct (proj1 (proj2 (@ensureDirectory_outcome (Scenario.idle None) "/w/out/results"
                              Cases.out_is_a_file))
                ["w"; "out"] "not a directory" 3 Hp eq_refl) as [Hsame Hnone].
    split; [exact Hsame|]. split; [exact Hnone|]. split; [reflexivity|].
    apply (proj2 (proj2 (@ensureDirectory_outcome Cases.read_only "/w/out" empty_root))
             1%nat eq_refl).
    + vm_compute. lia.
    + reflexivity.
Defined.

(** X4: [ensureDirectory] is idempotent. *)
Theorem ensureDirectory_idempotent `{Host} (dir : string) (fs : Node) :
  ensureDirectory dir (ensureDirectory dir fs) = ensureDirectory dir fs.
Proof.
  unfold ensureDirectory.
  destruct (mkdir_p now (mkdir_reach dir) fs) as [n'|] eqn:Em; simpl.
  - destruct (mkdir_p_creates _ _ _ _ Em) as (t' & es & Hl).
    by rewrite (RunnerProofs.mkdir_p_existing _ _ _ _ _ Hl).
  - by rewrite Em.
Qed.

(** *** Reading the artifact *)



(** *** The output channel *)

(** X6: everything the command printed reaches the output channel, in
    order, after what the channel held; the runner adds one line of its
    own, [Failed to parse TRX: ...], exactly when an artifact was found
    and reading or parsing it threw. *)
Theorem runTests_output `{Host} (command cwd : string) (fs : Node)
    (out chunks : list string) (code : option Z) (fs2 : Node) :
  spawn command cwd (ensureDirectory (resultsDir_of command cwd) fs) = (chunks, code, fs2) ->
  let dir := resultsDir_of command cwd in
  (runTests command cwd fs out).2 =
  match findLatestTrx dir fs2 with
  | Some trx =>
      match parseTrx trx fs2 with
      | inl e => out ++ chunks ++ ["Failed to parse TRX: " +:+ err_message e +:+ newline]
      | inr _ => out ++ chunks
      end
  | None => out ++ chunks
  end.
Proof.
  intros Hs dir. subst dir. unfold runTests. rewrite Hs. unfold on_close.
  set (dir := resultsDir_of command cwd).
  destruct (findLatestTrx dir fs2) as [trx|]; [|done].
  destruct (parseTrx trx fs2) as [e|parsed]; [|done].
  simpl. unfold appendLine. rewrite <- app_assoc. by do 3 f_equal.
Qed.

Lemma runTests_output_witness :
  @spawn (Cases.broken (Some 1)) "dotnet test --results-directory /w/out" "/w"
     (@ensureDirectory (Cases.broken (Some 1))
        (@resultsDir_of (Cases.broken (Some 1)) "dotnet test --results-directory /w/out" "/w")
        empty_root)
  = (["Build started."; "Build failed."], Some 1,
     Dir 0 [("w", Dir 0 [("out", Dir 0 [("results.trx", File "<TestRun" 5)])])]) /\
  (@runTests (Cases.broken (Some 1)) "dotnet test --results-directory /w/out" "/w"
     empty_root ["Running tests"]).2
  = ["Running tests"; "Build started."; "Build failed.";
     "Failed to parse TRX: Unexpected end of input" +:+ newline].
Proof.
  split; [reflexivity|].
  exact (@runTests_output (Cases.broken (Some 1)) "dotnet test --results-directory /w/out"
           "/w" empty_root ["Running tests"] _ (Some 1) _ eq_refl).
Defined.

(** *** The results directory, where the pattern works *)

Lemma is_char_sym (a b : ascii) : is_char a b = is_char b a.
Proof. unfold is_char. apply N.eqb_sym. Qed.

Lemma is_char_refl (a : ascii) : is_char a a = true.
Proof. unfold is_char. apply N.eqb_refl. Qed.

Lemma startsWith_app (p s : string) : startsWith p (p +:+ s) = true.
Proof. induction p as [|c p IH]; simpl; [done|]. by rewrite is_char_refl. Qed.

Lemma drop_app (p s : string) : drop (String.length p) (p +:+ s) = s.
Proof. induction p as [|c p IH]; simpl; [by destruct s|done]. Qed.

Lemma span_app (f : ascii -> bool) (a b : string) :
  all_chars f a = true ->
  match b with String c _ => f c = false | EmptyString => True end ->
  span f (a +:+ b) = (a, b).
Proof.
  intros Ha Hb. induction a as [|c a IH]; simpl in *.
  - destruct b as [|c r]; [done|]. simpl. by rewrite Hb.
  - apply andb_prop in Ha as [Hc Ha]. by rewrite Hc, (IH Ha).
Qed.

Lemma occurs_all_chars (c : ascii) (s : string) :
  occurs c s = false -> all_chars (fun x => negb (is_char x c)) s = true.
Proof.
  induction s as [|x r IH]; simpl; [done|].
  intros [Hx Hr]%orb_false_elim. by rewrite Hx, (IH Hr).
Qed.

Lemma strip_trailing_quote_app (p : string) (q : ascii) :
  is_quote q = true -> strip_trailing_quote (p +:+ String q EmptyString) = p.
Proof.
  intros Hq. induction p as [|c p IH]; simpl; [by rewrite Hq|].
  rewrite IH. by destruct p.
Qed.

Lemma is_quote_inv (q : ascii) : is_quote q = true -> q = squote \/ q = dquote.
Proof.
  unfold is_quote. intros [H|H]%orb_prop; apply RunnerProofs.is_char_eq in H; auto.
Qed.

Lemma group1_quoted (q : ascii) (p rest : string) :
  is_quote q = true -> p <> EmptyString -> occurs q p = false ->
  group1 (String q (p +:+ String q rest)) = Some (String q (p +:+ String q EmptyString)).
Proof.
  intros Hq Hp Ho.
  assert (Hquoted : quoted q (String q (p +:+ String q rest))
                    = Some (String q (p +:+ String q EmptyString))).
  { unfold quoted. rewrite is_char_refl.
    rewrite (span_app (fun x => negb (is_char x q)) p (String q rest));
      [|by apply occurs_all_chars|by simpl; rewrite is_char_refl].
    destruct p; [done|]. by rewrite is_char_refl. }
  unfold group1. destruct (is_quote_inv q Hq) as [->| ->].
  - assert (quoted dquote (String squote (p +:+ String squote rest)) = None) as -> by done.
    by rewrite Hquoted.
  - by rewrite Hquoted.
Qed.

Lemma results_match_skip (pre x : string) (g : string) :
  occurs "-" pre = false ->
  results_match_here x = Some g ->
  results_match (pre +:+ x) = Some g.
Proof.
  intros Ho Hx. induction pre as [|c pre IH].
  - change (EmptyString +:+ x) with x. destruct x; cbn [results_match]; by rewrite Hx.
  - cbn [occurs] in Ho. apply orb_false_elim in Ho as [Hc Ho].
    change (String c pre +:+ x) with (String c (pre +:+ x)).
    cbn [results_match].
    assert (Hhere : results_match_here (String c (pre +:+ x)) = None).
    { unfold results_match_here. cbn [startsWith flag].
      by rewrite is_char_sym, Hc. }
    rewrite Hhere. by apply IH.
Qed.

(** X7: when nothing before the flag holds a [-], and the flag is
    followed by white space and a non-empty text between two quote
    characters of one kind that does not hold that character, the
    results directory is that text, whatever follows the closing quote. *)
Theorem parseResultsDirectory_quoted (pre ws p rest : string) (q : ascii) :
  occurs "-" pre = false ->
  ws <> EmptyString -> all_chars is_space ws = true ->
  is_quote q = true ->
  p <> EmptyString -> occurs q p = false ->
  parseResultsDirectory (pre +:+ flag +:+ ws +:+ String q (p +:+ String q rest)) = Some p.
Proof.
  intros Hpre Hws Hsp Hq Hp Ho. unfold parseResultsDirectory.
  rewrite (results_match_skip pre _ (String q (p +:+ String q EmptyString))); [|done|].
  - simpl. unfold strip_quotes. simpl. rewrite Hq.
    by rewrite strip_trailing_quote_app.
  - unfold results_match_here. rewrite startsWith_app, (drop_app flag).
    rewrite (span_app is_space ws);
      [|done|by destruct (is_quote_inv q Hq) as [->| ->]].
    cbn [fst].
    assert (Hd : drop (String.length ws) (ws +:+ String q (p +:+ String q rest))
                 = String q (p +:+ String q rest)) by apply drop_app.
    destruct ws as [|c ws']; [done|].
    cbn [String.length spaces_then_group]. cbn [String.length] in Hd.
    by rewrite Hd, group1_quoted.
Qed.

Lemma parseResultsDirectory_quoted_witness :
  occurs "-" "dotnet test " = false /\
  "  " <> EmptyString /\ all_chars is_space "  " = true /\
  is_quote squote = true /\
  "my results" <> EmptyString /\ occurs squote "my results" = false /\
  parseResultsDirectory "dotnet test --results-directory  'my results' --logger trx"
  = Some "my results".
Proof.
  repeat (split; [done|]).
  exact (parseResultsDirectory_quoted "dotnet test " "  " "my results" " --logger trx"
           squote eq_refl ltac:(discriminate) eq_refl eq_refl ltac:(discriminate) eq_refl).
Defined.

Lemma results_match_here_needs_space (s : string) :
  (startsWith flag s &&
   match drop (String.length flag) s with
   | String c _ => is_space c
   | EmptyString => false
   end) = false ->
  results_match_here s = None.
Proof.
  unfold results_match_here. destruct (startsWith flag s); [|reflexivity].
  cbn [andb]. destruct (drop (String.length flag) s) as [|c r]; [reflexivity|].
  intros Hc. cbn [span]. rewrite Hc. reflexivity.
Qed.

(** X8: when the flag stands nowhere in the command followed by a
    white-space character (it is absent, or written with [=]),
    [runTests] works in [deepseek_test_results] under the working
    directory. *)
Theorem resultsDir_of_fallback `{Host} (command cwd : string) :
  no_flag_then_space command = true ->
  resultsDir_of command cwd = path_join cwd "deepseek_test_results".
Proof.
  intros Hn. apply RunnerProofs.resultsDir_of_default.
  induction command as [|c r IH].
  - reflexivity.
  - cbn [no_flag_then_space] in Hn. apply andb_prop in Hn as [Hn Hr].
    apply negb_true_iff in Hn. cbn [results_match].
    rewrite (results_match_here_needs_space _ Hn). by apply IH.
Qed.

Lemma resultsDir_of_fallback_witness :
  no_flag_then_space "dotnet test --results-directory=out" = true /\
  @resultsDir_of (Scenario.idle None) "dotnet test --results-directory=out" "/w"
  = "/w/deepseek_test_results".
Proof.
  split; [reflexivity|].
  exact (@resultsDir_of_fallback (Scenario.idle None)
           "dotnet test --results-directory=out" "/w" eq_refl).
Defined.

(** *** Artifacts from earlier runs *)

(** X24: the runner does not ask whether an artifact is new: when the
    results directory exists and the command changes nothing in the file
    system, the latest artifact that was there before the run is read
    and reported as the result of the run. *)
Theorem runTests_reports_earlier_artifact `{Host} (command cwd : string) (fs : Node)
    (out chunks : list string) (code : option Z) (t : Z) (es : list (string * Node))
    (trx : string) (parsed : TestRunResult) :
  lookup (resolve (resultsDir_of command cwd)) fs = Some (Dir t es) ->
  spawn command cwd fs = (chunks, code, fs) ->
  findLatestTrx (resultsDir_of command cwd) fs = Some trx ->
  parseTrx trx fs = inr parsed ->
  let r := (runTests command cwd fs out).1.1 in
  failures r = failures parsed /\ summary r = summary parsed /\
  resultsFile r = Some trx /\
  (runTests command cwd fs out).1.2 = fs.
Proof.
  intros Hdir Hs Hf Hp r. subst r. unfold runTests, ensureDirectory.
  rewrite (RunnerProofs.mkdir_reach_existing _ _ _ _ Hdir).
  change (default fs (Some fs)) with fs.
  rewrite Hs. unfold on_close. rewrite Hf, Hp. cbn.
  repeat split; try done.
  unfold parseTrx in Hp. destruct (readFile trx fs); [done|].
  destruct (xml_parse s); [done|]. by injection Hp as <-.
Qed.

Lemma runTests_reports_earlier_artifact_witness :
  lookup (@resolve (Cases.quiet (Some 0))
            (@resultsDir_of (Cases.quiet (Some 0)) "dotnet build --results-directory /w/out" "/w"))
    Cases.three_artifacts
  = Some (Dir 0 [("old.trx", File "<TestRun/>" 5); ("notes.txt", File "later" 9);
                 ("New.TRX", File "<TestRun/>" 7); ("same.trx", File "<TestRun/>" 7)]) /\
  resultsFile (@runTests (Cases.quiet (Some 0)) "dotnet build --results-directory /w/out" "/w"
                 Cases.three_artifacts []).1.1 = Some "/w/out/New.TRX".
Proof.
  split; [reflexivity|].
  exact (proj1 (proj2 (proj2 (@runTests_reports_earlier_artifact (Cases.quiet (Some 0))
           "dotnet build --results-directory /w/out" "/w" Cases.three_artifacts [] []
           (Some 0) 0 _ "/w/out/New.TRX" _ eq_refl eq_refl eq_refl eq_refl)))).
Defined.

End RunnerExtras.

(** ** Further properties of the client *)
Module LlmExtras.

Import Js Llm LlmDocumented Scenario SemaphoreHistory.

(** *** One request *)

Lemma try_call_duration (opts : LlmClientOptions) `{Network} (n : nat) (prompt : string) :
  (try_call opts n prompt).2 <= timer_delay (timeoutMs opts).
Proof.
  unfold try_call. set (t := timer_delay (timeoutMs opts)).
  destruct (remote n (request_of opts prompt)) as [h resp b bd|a e|]; simpl; [| |lia].
  - destruct (Z.ltb_spec h t); simpl; [|lia].
    destruct (ensureSuccess resp); simpl; [lia|].
    destruct (Z.ltb_spec b t); simpl; lia.
  - destruct (Z.ltb_spec a t); simpl; lia.
Qed.

Lemma call_duration (opts : LlmClientOptions) `{Network} (n : nat) (prompt : string) :
  (call opts n prompt).2 <= timer_delay (timeoutMs opts).
Proof.
  unfold call. pose proof (try_call_duration opts n prompt) as Hd.
  destruct (try_call opts n prompt) as [[e|r] d]; simpl in *; [|done].
  by destruct (String.eqb (err_name e) "AbortError").
Qed.

(** X9: whatever the network does, an attempt has settled when its timer
    fires: after [timeoutMs] when that is between 1 and 2147483647, and
    after 1 ms otherwise; so with a timeout of at least 1 ms it settles
    no later than the timeout.  The error it throws is never an
    [AbortError]: an abort is always renamed. *)
Theorem call_settles_in_time (opts : LlmClientOptions) `{Network} (n : nat)
    (prompt : string) :
  (call opts n prompt).2 <= timer_delay (timeoutMs opts) /\
  (1 <= timeoutMs opts -> (call opts n prompt).2 <= timeoutMs opts) /\
  forall e, (call opts n prompt).1 = inl e -> err_name e <> "AbortError".
Proof.
  pose proof (call_duration opts n prompt) as Hd.
  pose proof (LlmProofs.timer_delay_range (timeoutMs opts)) as (_ & Hle & _).
  split; [done|]. split; [lia|].
  unfold call. destruct (try_call opts n prompt) as [[e0|r] d]; simpl; [|done].
  destruct (String.eqb_spec (err_name e0) "AbortError") as [He|He]; simpl.
  - by intros e [= <-].
  - by intros e [= <-].
Qed.

Lemma call_settles_in_time_witness :
  1 <= timeoutMs options /\
  (@call options silent 0%nat "hi").2 <= timeoutMs options /\
  (@call options silent 0%nat "hi").1 = inl (new_Error "LLM request timed out") /\
  err_name (new_Error "LLM request timed out") <> "AbortError".
Proof.
  assert (Ht : 1 <= timeoutMs options) by done.
  split; [exact Ht|]. split.
  - exact (proj1 (proj2 (call_settles_in_time options (H := silent) 0%nat "hi")) Ht).
  - split; [reflexivity|].
    exact (proj2 (proj2 (call_settles_in_time options (H := silent) 0%nat "hi"))
             (new_Error "LLM request timed out") eq_refl).
Defined.

(** X10: an attempt returns a result exactly when the head and the body
    of the response arrive before the timer fires, the status is a
    success and the body decodes to a value that [extractContent] can
    read; the result then is the decoded body with the content that
    [extractContent] finds in it.  A body that arrives as early with a
    successful status but decodes to [null], or has a first choice that
    is [null] or missing, fails the attempt with the [TypeError] of
    [extractContent]. *)
Theorem call_returns_iff (opts : LlmClientOptions) `{Network} (n : nat)
    (prompt : string) (d : Z) :
  (forall r,
     call opts n prompt = (inr r, d) <->
     exists head_at response data,
       remote n (request_of opts prompt) = Replies head_at response d (Json data) /\
       head_at < timer_delay (timeoutMs opts) /\ d < timer_delay (timeoutMs opts) /\
       ok response = true /\
       r = mkGenerateResult (extractContent data) data) /\
  (forall head_at response bd,
     remote n (request_of opts prompt) = Replies head_at response d bd ->
     head_at < timer_delay (timeoutMs opts) -> d < timer_delay (timeoutMs opts) ->
     ok response = true ->
     match bd with
     | JsonNull | JsonNullishChoice _ =>
         exists e, call opts n prompt = (inl e, d) /\ err_name e = "TypeError"
     | _ => True
     end).
Proof.
  split.
  - intros r. split.
    + unfold call, try_call, ensureSuccess.
      set (t := timer_delay (timeoutMs opts)).
      destruct (remote n (request_of opts prompt)) as [h resp b bd|a e|].
      * destruct (Z.ltb_spec h t) as [Hh|Hh]; [|done].
        destruct (ok resp) eqn:Hok; [|done].
        destruct (Z.ltb_spec b t) as [Hb|Hb]; [|done].
        destruct bd as [data| |first|e]; simpl.
        -- intros [= <- <-]. by exists h, resp, data.
        -- done.
        -- by destruct first.
        -- by destruct (String.eqb (err_name e) "AbortError").
      * destruct (a <? t); [|done].
        by destruct (String.eqb (err_name e) "AbortError").
      * done.
    + intros (h & resp & data & Hr & Hh & Hd & Hok & ->).
      unfold call, try_call, ensureSuccess. rewrite Hr, Hok.
      destruct (Z.ltb_spec h (timer_delay (timeoutMs opts))); [|lia].
      destruct (Z.ltb_spec d (timer_delay (timeoutMs opts))); [|lia]. done.
  - intros h resp bd Hr Hh Hd Hok.
    unfold call, try_call, ensureSuccess. rewrite Hr, Hok.
    destruct (Z.ltb_spec h (timer_delay (timeoutMs opts))); [|lia].
    destruct (Z.ltb_spec d (timer_delay (timeoutMs opts))); [|lia].
    destruct bd as [data| |first|e]; try done; by eexists.
Qed.

Lemma call_returns_iff_witness :
  (exists head_at response data,
     @remote flaky 2%nat (request_of options "hi") = Replies head_at response 45 (Json data) /\
     head_at < timer_delay (timeoutMs options) /\ 45 < timer_delay (timeoutMs options) /\
     ok response = true /\
     mkGenerateResult "class A {}" hello = mkGenerateResult (extractContent data) data) /\
  @call options flaky 2%nat "hi" = (inr (mkGenerateResult "class A {}" hello), 45) /\
  (exists e, @call options (Cases.answers JsonNull) 0%nat "hi" = (inl e, 45) /\
             err_name e = "TypeError").
Proof.
  assert (Hex : exists head_at response data,
     @remote flaky 2%nat (request_of options "hi") = Replies head_at response 45 (Json data) /\
     head_at < timer_delay (timeoutMs options) /\ 45 < timer_delay (timeoutMs options) /\
     ok response = true /\
     mkGenerateResult "class A {}" hello = mkGenerateResult (extractContent data) data).
  { exists 40, (mkResponse true 200 "OK"), hello. by repeat split. }
  split; [exact Hex|]. split.
  - exact (proj2 (proj1 (call_returns_iff options (H := flaky) 2%nat "hi" 45)
                    (mkGenerateResult "class A {}" hello)) Hex).
  - exact (proj2 (call_returns_iff options (H := Cases.answers JsonNull) 0%nat "hi" 45)
             40 (mkResponse true 200 "OK") JsonNull eq_refl eq_refl eq_refl eq_refl).
Defined.

(** X11: a response whose status is not a success, arriving before the
    timer fires, fails the attempt with [LLM request failed: <status>
    <statusText>] as soon as its head arrives; its body is not read. *)
Theorem call_upstream_error (opts : LlmClientOptions) `{Network} (n : nat)
    (prompt : string) (head_at body_at : Z) (response : Response) (bd : Body) :
  remote n (request_of opts prompt) = Replies head_at response body_at bd ->
  head_at < timer_delay (timeoutMs opts) ->
  ok response = false ->
  call opts n prompt
  = (inl (new_Error ("LLM request failed: " +:+ pretty (status response) +:+ " "
                       +:+ statusText response)), head_at).
Proof.
  intros Hr Hh Hok. unfold call, try_call, ensureSuccess. rewrite Hr, Hok.
  destruct (Z.ltb_spec head_at (timer_delay (timeoutMs opts))); [|lia]. done.
Qed.

Lemma call_upstream_error_witness :
  @remote flaky 0%nat (request_of options "hi")
  = Replies 40 (mkResponse false 503 "Service Unavailable") 45 (Json hello) /\
  40 < timer_delay (timeoutMs options) /\
  @call options flaky 0%nat "hi"
  = (inl (new_Error "LLM request failed: 503 Service Unavailable"), 40).
Proof.
  split; [reflexivity|]. split; [reflexivity|].
  exact (call_upstream_error options (H := flaky) 0%nat "hi" 40 45
           (mkResponse false 503 "Service Unavailable") (Json hello)
           eq_refl eq_refl eq_refl).
Defined.

(** *** The retry loop *)

(** X12: [callWithRetry] sends one, two or three requests and only adds
    to the trace; what it returns or throws is the outcome of the last
    request it sent, every request before that one having failed, and it
    throws only after three requests. *)
Theorem callWithRetry_bounds (opts : LlmClientOptions) `{Network} (prompt : string)
    (w : World) :
  let out := callWithRetry opts prompt w in
  (requests w < requests out.2 <= requests w + 3)%nat /\
  out.1 = (call opts (Nat.pred (requests out.2)) prompt).1 /\
  (forall k, (requests w <= k < Nat.pred (requests out.2))%nat ->
             exists e, (call opts k prompt).1 = inl e) /\
  (forall e, out.1 = inl e -> requests out.2 = (requests w + 3)%nat) /\
  exists tr, trace out.2 = trace w ++ tr.
Proof.
  intros out. subst out. unfold callWithRetry.
  change (Z.to_nat attempts) with 3%nat.
  destruct (call opts (requests w) prompt) as [[e1|r1] d1] eqn:E1;
    destruct (call opts (S (requests w)) prompt) as [[e2|r2] d2] eqn:E2;
    destruct (call opts (S (S (requests w))) prompt) as [[e3|r3] d3] eqn:E3;
    cbn [retry_loop requests clock trace]; rewrite ?E1;
    cbn [retry_loop requests clock trace]; rewrite ?E2;
    cbn [retry_loop requests clock trace]; rewrite ?E3;
    change (1 =? attempts) with false; change (1 + 1 =? attempts) with false;
    change (1 + 1 + 1 =? attempts) with true; cbv iota;
    cbn [fst snd requests clock trace Nat.pred]; rewrite <- ?app_assoc;
    rewrite ?E1, ?E2, ?E3;
    (split; [lia|]); (split; [done|]);
    (split; [intros k Hk;
             assert (Hcases : k = requests w \/ k = S (requests w)) by lia;
             destruct Hcases as [->| ->]; rewrite ?E1, ?E2; try lia; by eexists|]);
    (split; [intros e He; try done; lia|]); by eexists.
Qed.

Lemma callWithRetry_bounds_witness :
  (@callWithRetry options silent "hi" world0).1 = inl (new_Error "LLM request timed out") /\
  requests (@callWithRetry options silent "hi" world0).2 = (requests world0 + 3)%nat.
Proof.
  split; [reflexivity|].
  exact (proj1 (proj2 (proj2 (proj2 (callWithRetry_bounds options (H := silent) "hi" world0))))
           (new_Error "LLM request timed out") eq_refl).
Defined.

(** *** Reading the response *)

(** X13: [extractContent] looks at the first choice only; a non-empty
    [message.content] of the first choice wins over everything else;
    when no choice yields text, a top-level [content] that is present
    decides alone, so that a blank [content] gives the empty string even
    when [result] holds text. *)
Theorem extractContent_order (data : Data) :
  (forall c rest,
     choices data = Some (c :: rest) ->
     extractContent data
     = extractContent (mkData (Some [c]) (data_content data) (data_result data))) /\
  (forall c rest m,
     choices data = Some (c :: rest) -> message_content c = Some m -> m <> EmptyString ->
     extractContent data = m) /\
  (forall x,
     match choices data with
     | Some (c :: _) => nonempty (message_content c) = None /\ nonempty (text c) = None
     | _ => True
     end ->
     data_content data = Some x ->
     extractContent data = if has_non_space x then x else EmptyString).
Proof.
  unfold extractContent. split; [|split].
  - intros c rest ->. done.
  - intros c rest m -> -> Hm. simpl. by destruct m.
  - intros x Hc ->.
    destruct (choices data) as [[|c rest]|]; try done.
    destruct Hc as [-> ->]. done.
Qed.

Lemma extractContent_order_witness :
  data_content (mkData None (Some "   ") (Some "class B {}")) = Some "   " /\
  extractContent (mkData None (Some "   ") (Some "class B {}")) = EmptyString.
Proof.
  split; [reflexivity|].
  exact (proj2 (proj2 (extractContent_order (mkData None (Some "   ") (Some "class B {}"))))
           "   " I eq_refl).
Defined.

(** *** The semaphore *)

Lemma history_accounting (ops : list Op) :
  forall (s : Semaphore nat) (k : Z),
    0 <= counter s ->
    (queue s <> [] -> counter s = 0) ->
    counter s = k + Z.of_nat (length (queue s)) ->
    let s' := history ops s in
    0 <= counter s' /\
    (queue s' <> [] -> counter s' = 0) /\
    counter s' = k + releases ops - acquires ops + Z.of_nat (length (queue s')).
Proof.
  unfold history, releases, acquires.
  induction ops as [|o ops IH]; intros s k H0 Hq Hk; simpl.
  - repeat split; try done. lia.
  - destruct o as [who|]; simpl.
    + unfold acquire. destruct (Z.ltb_spec 0 (counter s)) as [Hc|Hc]; simpl.
      * assert (Hnil : queue s = []).
        { destruct (queue s) eqn:E; [done|]. assert (counter s = 0) by by apply Hq. lia. }
        destruct (IH {| queue := queue s; counter := counter s - 1 |} (k - 1))
          as (I0 & Iq & Ik); simpl; rewrite ?Hnil in *; simpl in *; try lia; try done.
        repeat split; try done. lia.
      * destruct (IH {| queue := queue s ++ [who]; counter := counter s |} (k - 1))
          as (I0 & Iq & Ik); simpl; rewrite ?length_app; simpl; try lia.
        repeat split; try done. lia.
    + unfold release. destruct (queue s) as [|next rest] eqn:E; simpl.
      * destruct (IH {| queue := []; counter := counter s + 1 |} (k + 1))
          as (I0 & Iq & Ik); simpl in *; try lia; try done.
        repeat split; try done. lia.
      * assert (counter s = 0) by by apply Hq.
        destruct (IH {| queue := rest; counter := counter s + 1 - 1 |} (k + 1))
          as (I0 & Iq & Ik); simpl in *; try lia.
        repeat split; try done. lia.
Qed.

(** X14: however [acquire] and [release] are called on a new semaphore,
    paired or not, the counter never goes below zero, callers wait only
    while it is zero, and the counter is the initial count plus the
    releases minus the acquires, the callers still waiting added back. *)
Theorem semaphore_accounting (count : Z) (ops : list Op) :
  let s := history ops (new_Semaphore count) in
  0 <= counter s /\
  (queue s <> [] -> counter s = 0) /\
  counter s = Z.max 1 count + releases ops - acquires ops + Z.of_nat (length (queue s)).
Proof.
  apply history_accounting; simpl; [lia|done|lia].
Qed.

Lemma semaphore_accounting_witness :
  queue (history [Acquire 1; Acquire 2; Release; Release; Release]%nat (new_Semaphore 0)) = [] /\
  counter (history [Acquire 1; Acquire 2; Release; Release; Release]%nat (new_Semaphore 0))
  = Z.max 1 0 + releases [Acquire 1; Acquire 2; Release; Release; Release]%nat
    - acquires [Acquire 1; Acquire 2; Release; Release; Release]%nat
    + Z.of_nat (length (queue (history [Acquire 1; Acquire 2; Release; Release; Release]%nat
                                 (new_Semaphore 0)))).
Proof.
  split; [reflexivity|].
  exact (proj2 (proj2 (semaphore_accounting 0
                         [Acquire 1; Acquire 2; Release; Release; Release]%nat))).
Defined.

(** X15: in every history of a client the free slots and the running
    calls add up to the ceiling, a call waits only while every slot is
    taken, and when no call is running all slots are free and nobody
    waits. *)
Theorem gate_conserves_slots (opts : LlmClientOptions) (acts : list Action) (g : Gate) :
  run opts acts (init opts) = Some g ->
  counter (sem g) = capacity opts - Z.of_nat (length (running g)) /\
  (queue (sem g) <> [] -> Z.of_nat (length (running g)) = capacity opts) /\
  (running g = [] -> counter (sem g) = capacity opts /\ queue (sem g) = []).
Proof.
  intros Hr.
  destruct (LlmProofs.gate_inv_run _ _ _ _ (LlmProofs.gate_inv_init opts) Hr)
    as (H0 & Hsum & Hq & _).
  split; [lia|]. split.
  - intros Hne. specialize (Hq Hne). lia.
  - intros Hnil. rewrite Hnil in Hsum. simpl in Hsum. split; [lia|].
    destruct (queue (sem g)) eqn:E; [done|].
    assert (counter (sem g) = 0) by by apply Hq.
    pose proof (LlmProofs.capacity_clamped opts). exfalso.
    destruct (Z.ltb_spec (maxConcurrentRequests opts) 1); lia.
Qed.

Lemma gate_conserves_slots_witness :
  run options [Call 1; Call 2; Call 3; Settle 1 (inl AbortError);
               Settle 3 (inl AbortError); Settle 2 (inl AbortError)]%nat (init options)
  = Some {| sem := {| queue := []; counter := 2 |};
            running := [];
            arrived := [1; 2; 3]%nat;
            admitted := [1; 2; 3]%nat |} /\
  2 = capacity options - Z.of_nat (length (@nil nat)).
Proof.
  split; [reflexivity|].
  exact (proj1 (gate_conserves_slots options
                  [Call 1; Call 2; Call 3; Settle 1 (inl AbortError);
                   Settle 3 (inl AbortError); Settle 2 (inl AbortError)]%nat _ eq_refl)).
Defined.

(** *** Waiting callers *)

Lemma step_admitted_grows (opts : LlmClientOptions) (a : Action) (g g' : Gate) (id : nat) :
  step opts a g = Some g' -> id ∈ admitted g -> id ∈ admitted g'.
Proof.
  intros Hs Hin. destruct a as [x|x r]; simpl in Hs.
  - destruct (decide (x ∈ arrived g)); [done|].
    destruct (generate_start opts x (sem g)) as [[e| |] s];
      injection Hs as <-; simpl; try done.
    apply elem_of_app. by left.
  - destruct (decide (x ∈ running g)); [|done].
    destruct (release (sem g)) as [[next|] s]; injection Hs as <-; simpl; [|done].
    apply elem_of_app. by left.
Qed.

Lemma run_admitted_grows (opts : LlmClientOptions) (acts : list Action) :
  forall (g g' : Gate) (id : nat),
    run opts acts g = Some g' -> id ∈ admitted g -> id ∈ admitted g'.
Proof.
  induction acts as [|a rest IH]; intros g g' id Hr Hin; simpl in Hr.
  - by injection Hr as <-.
  - destruct (step opts a g) as [g1|] eqn:Es; simpl in Hr; [|done].
    eapply IH; [done|]. by eapply step_admitted_grows.
Qed.

(** X25: no caller waits for ever behind the others: the caller at
    place [k] of the queue has its slot once [k + 1] calls have settled,
    whatever calls arrive in between. *)
Theorem waiting_caller_is_admitted (opts : LlmClientOptions) (acts : list Action) :
  forall (g g' : Gate) (k id : nat),
    queue (sem g) !! k = Some id ->
    (k < Cases.settles acts)%nat ->
    run opts acts g = Some g' ->
    id ∈ admitted g'.
Proof.
  unfold Cases.settles.
  induction acts as [|a rest IH]; intros g g' k id Hq Hk Hr; simpl in *; [lia|].
  destruct (step opts a g) as [g1|] eqn:Es; simpl in Hr; [|done].
  destruct a as [x|x r]; simpl in Es, Hk.
  - destruct (decide (x ∈ arrived g)); [done|].
    unfold generate_start, acquire in Es.
    apply (IH g1 g' k id); [|done|done].
    destruct (apiUrl opts); [by injection Es as <-|].
    destruct (apiKey opts); [by injection Es as <-|].
    destruct (0 <? counter (sem g)); injection Es as <-; simpl; [done|].
    by apply lookup_app_l_Some.
  - destruct (decide (x ∈ running g)); [|done].
    unfold release in Es.
    destruct (queue (sem g)) as [|next rest'] eqn:E; [done|].
    injection Es as <-.
    destruct k as [|k'].
    + injection Hq as ->. eapply run_admitted_grows; [done|].
      simpl. apply elem_of_app. right. by apply list_elem_of_singleton.
    + eapply (IH _ g' k' id); [|lia|exact Hr]. done.
Qed.

Lemma waiting_caller_is_admitted_witness :
  queue (sem (mkGate {| queue := [4; 5]%nat; counter := 0 |} [1; 3]%nat
                [1; 2; 3; 4; 5]%nat [1; 2; 3]%nat)) !! 1%nat = Some 5%nat /\
  (1 < Cases.settles [Settle 3 (inl AbortError); Call 6; Settle 1 (inl AbortError)])%nat /\
  run options [Settle 3 (inl AbortError); Call 6; Settle 1 (inl AbortError)]%nat
    (mkGate {| queue := [4; 5]%nat; counter := 0 |} [1; 3]%nat
       [1; 2; 3; 4; 5]%nat [1; 2; 3]%nat)
  = Some (mkGate {| queue := [6]%nat; counter := 0 |} [4; 5]%nat
            [1; 2; 3; 4; 5; 6]%nat [1; 2; 3; 4; 5]%nat) /\
  5%nat ∈ [1; 2; 3; 4; 5]%nat.
Proof.
  split; [reflexivity|]. split; [vm_compute; lia|]. split; [reflexivity|].
  apply (waiting_caller_is_admitted options
           [Settle 3 (inl AbortError); Call 6; Settle 1 (inl AbortError)]%nat
           (mkGate {| queue := [4; 5]%nat; counter := 0 |} [1; 3]%nat
              [1; 2; 3; 4; 5]%nat [1; 2; 3]%nat)
           (mkGate {| queue := [6]%nat; counter := 0 |} [4; 5]%nat
              [1; 2; 3; 4; 5; 6]%nat [1; 2; 3; 4; 5]%nat) 1%nat 5%nat);
    [reflexivity | vm_compute; lia | reflexivity].
Defined.

End LlmExtras.

(** ** Properties of the webview's escaping *)
Module WebviewProofs.

Import Js Webview.

Local Arguments String.append : simpl nomatch.

Lemma append_assoc (a b c : string) : (a +:+ b) +:+ c = a +:+ (b +:+ c).
Proof. induction a as [|x a IH]; cbn [String.append]; [done|]. by rewrite IH. Qed.

Lemma append_nil_r (a : string) : a +:+ EmptyString = a.
Proof. induction a as [|x a IH]; cbn [String.append]; [done|]. by rewrite IH. Qed.

Lemma occurs_app (c : ascii) (a b : string) :
  occurs c (a +:+ b) = occurs c a || occurs c b.
Proof.
  induction a as [|x a IH]; cbn [String.append occurs]; [done|].
  by rewrite IH, orb_assoc.
Qed.

Lemma is_char_true (x c : ascii) : is_char x c = true -> x = c.
Proof.
  unfold is_char, code. intros E. apply N.eqb_eq in E.
  rewrite <- (ascii_N_embedding x), <- (ascii_N_embedding c). by rewrite E.
Qed.

(** The character is one of the five, with its entity, or none of
    them. *)
Inductive Escaped (x : ascii) : string -> Prop :=
| EscAmp : x = "&"%char -> Escaped x "&amp;"
| EscLt : x = "<"%char -> Escaped x "&lt;"
| EscGt : x = ">"%char -> Escaped x "&gt;"
| EscDquote : x = dquote -> Escaped x "&quot;"
| EscSquote : x = squote -> Escaped x "&#39;"
| EscPlain :
    is_char x "&"%char = false -> is_char x "<"%char = false ->
    is_char x ">"%char = false -> is_char x dquote = false ->
    is_char x squote = false -> Escaped x (String x EmptyString).

Lemma escape_char_cases (x : ascii) : Escaped x (escape_char x).
Proof.
  unfold escape_char.
  destruct (is_char x "&") eqn:E1; [by apply EscAmp, is_char_true|].
  destruct (is_char x "<") eqn:E2; [by apply EscLt, is_char_true|].
  destruct (is_char x ">") eqn:E3; [by apply EscGt, is_char_true|].
  destruct (is_char x dquote) eqn:E4; [by apply EscDquote, is_char_true|].
  destruct (is_char x squote) eqn:E5; [by apply EscSquote, is_char_true|].
  by apply EscPlain.
Qed.

(** The five replacements, one after the other, act on each character
    by itself. *)
Lemma escapeHtml_cons (x : ascii) (r : string) :
  escapeHtml (String x r) = escape_char x +:+ escapeHtml r.
Proof.
  destruct (escape_char_cases x) as [-> | -> | -> | -> | -> | H1 H2 H3 H4 H5];
    try reflexivity.
  unfold escapeHtml. cbn [replace_char].
  rewrite H1. cbn [replace_char]. rewrite H2. cbn [replace_char]. rewrite H3.
  cbn [replace_char]. rewrite H4. cbn [replace_char]. by rewrite H5.
Qed.

Lemma escapeHtml_app (a b : string) :
  escapeHtml (a +:+ b) = escapeHtml a +:+ escapeHtml b.
Proof.
  induction a as [|x a IH]; [done|].
  change (String x a +:+ b) with (String x (a +:+ b)).
  by rewrite !escapeHtml_cons, IH, append_assoc.
Qed.

Lemma escapeHtml_plain (s : string) : plain s = true -> escapeHtml s = s.
Proof.
  unfold plain. induction s as [|x s IH]; [done|].
  rewrite escapeHtml_cons. cbn [occurs]. intros Hp.
  apply negb_true_iff in Hp.
  repeat (apply orb_false_elim in Hp as [Hp ?]).
  repeat match goal with H : _ || _ = false |- _ => apply orb_false_elim in H as [? ?] end.
  rewrite IH.
  - unfold escape_char.
    by repeat match goal with H : is_char x _ = false |- _ => rewrite H; clear H end.
  - apply negb_true_iff.
    by repeat match goal with H : occurs _ s = false |- _ => rewrite H; clear H end.
Qed.

(** X16: the text that [escapeHtml] returns holds no [<], no [>] and no
    quote character, and every [&] in it starts one of the five
    entities: it is the concatenation of the images of its
    characters. *)
Theorem escapeHtml_output_is_inert (s : string) :
  occurs "<"%char (escapeHtml s) = false /\
  occurs ">"%char (escapeHtml s) = false /\
  occurs dquote (escapeHtml s) = false /\
  occurs squote (escapeHtml s) = false /\
  (forall x r, escapeHtml (String x r) = escape_char x +:+ escapeHtml r).
Proof.
  split; [|split; [|split; [|split; [|exact escapeHtml_cons]]]];
    (induction s as [|x s IH]; [done|]; rewrite escapeHtml_cons, occurs_app, IH, orb_false_r;
     destruct (escape_char_cases x) as [-> | -> | -> | -> | -> | H1 H2 H3 H4 H5];
     try reflexivity; cbn [occurs]; by rewrite ?H2, ?H3, ?H4, ?H5).
Qed.

Lemma escapeHtml_nonempty (x : ascii) (r : string) : escapeHtml (String x r) <> EmptyString.
Proof.
  rewrite escapeHtml_cons.
  by destruct (escape_char_cases x) as [-> | -> | -> | -> | -> | H1 H2 H3 H4 H5].
Qed.

(** X17: [escapeHtml] is injective: two texts shown alike are the same
    text. *)
Theorem escapeHtml_injective (a b : string) :
  escapeHtml a = escapeHtml b -> a = b.
Proof.
  revert b. induction a as [|x a IH]; intros [|y b] Heq; [done| | |].
  - symmetry in Heq. by apply escapeHtml_nonempty in Heq.
  - by apply escapeHtml_nonempty in Heq.
  - rewrite !escapeHtml_cons in Heq.
    destruct (escape_char_cases x) as [-> | -> | -> | -> | -> | H1 H2 H3 H4 H5];
      destruct (escape_char_cases y) as [-> | -> | -> | -> | -> | G1 G2 G3 G4 G5];
      cbn [String.append] in Heq; try discriminate Heq;
      try (injection Heq as Heq; f_equal; by apply IH);
      try (injection Heq as -> _; discriminate);
      try (injection Heq as <- _; discriminate).
    injection Heq as -> Heq. f_equal. by apply IH.
Qed.

Lemma escapeHtml_injective_witness :
  escapeHtml "a<b" = escapeHtml "a<b" /\ "a<b" = "a<b".
Proof.
  split; [reflexivity|].
  exact (escapeHtml_injective "a<b" "a<b" eq_refl).
Defined.

Lemma length_append (a b : string) :
  String.length (a +:+ b) = (String.length a + String.length b)%nat.
Proof.
  induction a as [|x a IH]; cbn [String.append String.length]; [done|]. by rewrite IH.
Qed.

Lemma escapeHtml_length (s : string) :
  (String.length s <= String.length (escapeHtml s))%nat.
Proof.
  induction s as [|x s IH]; [done|].
  rewrite escapeHtml_cons, length_append.
  destruct (escape_char_cases x) as [-> | -> | -> | -> | -> | H1 H2 H3 H4 H5];
    simpl; lia.
Qed.

Lemma escapeHtml_fixed_no_amp (s : string) :
  escapeHtml s = s -> occurs "&"%char s = false.
Proof.
  induction s as [|x s IH]; [done|].
  rewrite escapeHtml_cons. cbn [occurs]. intros Hid.
  destruct (escape_char_cases x) as [-> | -> | -> | -> | -> | H1 H2 H3 H4 H5];
    cbn [String.append] in Hid; try discriminate Hid.
  - exfalso. injection Hid as Hid.
    apply (f_equal String.length) in Hid.
    cbn [String.length] in Hid.
    pose proof (escapeHtml_length s). lia.
  - injection Hid as Hid. by rewrite H1, IH.
Qed.

(** X18: [escapeHtml] distributes over concatenation; it returns a text
    unchanged exactly when the text holds none of the five characters,
    and escaping an escaped text again changes it unless that is so. *)
Theorem escapeHtml_composes (a b : string) :
  escapeHtml (a +:+ b) = escapeHtml a +:+ escapeHtml b /\
  (escapeHtml a = a <-> plain a = true) /\
  (escapeHtml (escapeHtml a) = escapeHtml a <-> plain a = true).
Proof.
  split; [apply escapeHtml_app|].
  assert (Hfix : escapeHtml a = a <-> plain a = true).
  { split; [|apply escapeHtml_plain].
    intros Hid. unfold plain.
    destruct (escapeHtml_output_is_inert a) as (H1 & H2 & H3 & H4 & _).
    rewrite Hid in H1, H2, H3, H4.
    by rewrite (escapeHtml_fixed_no_amp a Hid), H1, H2, H3, H4. }
  split; [exact Hfix|].
  rewrite <- Hfix. split.
  - apply escapeHtml_injective.
  - intros Hid. by rewrite !Hid.
Qed.

End WebviewProofs.

(** ** Properties of the context snippet *)
Module ExtensionProofs.

Import Extension.

Lemma lineAt_inside (document : list string) (i : nat) :
  (i < length document)%nat -> lineAt document (Z.of_nat i) = document !! i.
Proof.
  intros Hi. unfold lineAt.
  destruct (Z.leb_spec 0 (Z.of_nat i)); [|lia].
  destruct (Z.ltb_spec (Z.of_nat i) (Z.of_nat (length document))); [|lia].
  simpl. by rewrite Nat2Z.id.
Qed.

(** The loop reads the lines it is asked for when they are all inside
    the document. *)
Lemma collect_lines_inside (document : list string) (count : nat) :
  forall i : nat,
    (i + count <= length document)%nat ->
    collect_lines document count (Z.of_nat i) = Some (take count (drop i document)).
Proof.
  induction count as [|k IH]; intros i Hi; simpl; [done|].
  rewrite lineAt_inside by lia.
  destruct (lookup_lt_is_Some_2 document i) as [x Hx]; [lia|].
  rewrite Hx. simpl.
  replace (Z.of_nat i + 1) with (Z.of_nat (S i)) by lia.
  rewrite IH by lia. simpl.
  by rewrite (drop_S _ _ _ Hx).
Qed.

Lemma snippet_lines_window (document : list string) (sel_start sel_end contextLines : Z) :
  snippet_lines document sel_start sel_end contextLines
  = Some (take (Z.to_nat (endLine_of document sel_end contextLines
                          - startLine_of sel_start contextLines + 1))
               (drop (Z.to_nat (startLine_of sel_start contextLines)) document)).
Proof.
  unfold snippet_lines.
  set (a := startLine_of sel_start contextLines).
  set (b := endLine_of document sel_end contextLines).
  assert (Ha : 0 <= a) by (unfold a, startLine_of; lia).
  assert (Hb : b <= Z.of_nat (length document) - 1) by (unfold b, endLine_of; lia).
  destruct (Z.lt_ge_cases b a) as [Hlt|Hge].
  - replace (Z.to_nat (b - a + 1)) with 0%nat by lia. done.
  - assert (Hk : (Z.to_nat a + Z.to_nat (b - a + 1) <= length document)%nat) by lia.
    revert Hk. generalize (Z.to_nat (b - a + 1)). intros k Hk.
    rewrite <- (collect_lines_inside document k (Z.to_nat a) Hk).
    f_equal. lia.
Qed.

(** X19: for every selection and every number of context lines,
    [buildContextSnippet] never asks for a line outside the document:
    it returns the lines from [max(0, start - context)] to
    [min(lineCount - 1, end + context)], joined by line feeds, and the
    empty text when that range is empty. *)
Theorem buildContextSnippet_window (document : list string) (sel_start sel_end contextLines : Z) :
  let a := startLine_of sel_start contextLines in
  let b := endLine_of document sel_end contextLines in
  buildContextSnippet document sel_start sel_end contextLines
  = Some (join (String "010"%char EmptyString)
            (take (Z.to_nat (b - a + 1)) (drop (Z.to_nat a) document))) /\
  (b < a -> buildContextSnippet document sel_start sel_end contextLines = Some EmptyString).
Proof.
  intros a b. unfold buildContextSnippet. rewrite snippet_lines_window.
  fold a. fold b. split; [done|].
  intros Hlt. replace (Z.to_nat (b - a + 1)) with 0%nat by lia. done.
Qed.

Lemma buildContextSnippet_window_witness :
  endLine_of ["using System;"; "class A {}"] 1 (-2) < startLine_of 1 (-2) /\
  buildContextSnippet ["using System;"; "class A {}"] 1 1 (-2) = Some EmptyString.
Proof.
  split; [reflexivity|].
  exact (proj2 (buildContextSnippet_window ["using System;"; "class A {}"] 1 1 (-2)) eq_refl).
Defined.

(** X20: with a selection inside the document and a number of context
    lines that is not negative, every selected line is in the snippet,
    at its distance from the first line of the window. *)
Theorem buildContextSnippet_keeps_selection (document : list string)
    (sel_start sel_end contextLines : Z) (i : nat) :
  0 <= contextLines ->
  0 <= sel_start -> sel_end < Z.of_nat (length document) ->
  sel_start <= Z.of_nat i <= sel_end ->
  exists lines text,
    snippet_lines document sel_start sel_end contextLines = Some lines /\
    document !! i = Some text /\
    lines !! (i - Z.to_nat (startLine_of sel_start contextLines))%nat = Some text.
Proof.
  intros Hc Hs He Hi.
  destruct (lookup_lt_is_Some_2 document i) as [text Hx]; [lia|].
  eexists _, text. split; [apply snippet_lines_window|]. split; [done|].
  set (a := startLine_of sel_start contextLines).
  set (b := endLine_of document sel_end contextLines).
  assert (Ha : 0 <= a <= sel_start) by (unfold a, startLine_of; lia).
  assert (Hb : sel_end <= b) by (unfold b, endLine_of; lia).
  rewrite lookup_take_lt by lia. rewrite lookup_drop.
  replace (Z.to_nat a + (i - Z.to_nat a))%nat with i by lia. done.
Qed.

Lemma buildContextSnippet_keeps_selection_witness :
  0 <= 1 /\
  exists lines text,
    snippet_lines ["a"; "b"; "c"; "d"; "e"] 2 3 1 = Some lines /\
    ["a"; "b"; "c"; "d"; "e"] !! 3%nat = Some text /\
    lines !! (3 - Z.to_nat (startLine_of 2 1))%nat = Some text.
Proof.
  split; [lia|].
  apply (buildContextSnippet_keeps_selection ["a"; "b"; "c"; "d"; "e"] 2 3 1 3);
    simpl; lia.
Defined.

End ExtensionProofs.

(** ** Properties of the prompt *)
Module PromptProofs.

Import Js Extension.

Local Arguments String.append : simpl nomatch.

Lemma substitute_plain (matched before after rep : string) :
  occurs dollar rep = false -> substitute matched before after rep = rep.
Proof.
  induction rep as [|c r IH]; [done|].
  cbn [occurs substitute]. intros [Hc Hr]%orb_false_elim.
  rewrite Hc. by rewrite IH.
Qed.

Lemma startsWith_length (p s : string) :
  startsWith p s = true -> (String.length p <= String.length s)%nat.
Proof.
  revert s. induction p as [|a p IH]; intros [|b s]; simpl; try done; try lia.
  intros [_ H]%andb_prop. apply IH in H. lia.
Qed.

Lemma startsWith_app_long (p x s : string) :
  (String.length p <= String.length x)%nat ->
  startsWith p (x +:+ s) = startsWith p x.
Proof.
  revert x. induction p as [|a p IH]; intros [|b x]; simpl; try done; try lia.
  intros Hl. rewrite IH by lia. done.
Qed.

Lemma drop_app_long (n : nat) (x s : string) :
  (n <= String.length x)%nat -> drop n (x +:+ s) = drop n x +:+ s.
Proof.
  revert x. induction n as [|n IH]; intros [|b x]; simpl; try done; try lia.
  intros Hl. apply IH. lia.
Qed.

Lemma split_at_first_length (p s before after : string) :
  split_at_first p s = Some (before, after) ->
  (String.length p <= String.length s)%nat.
Proof.
  revert before after. induction s as [|c r IH]; intros before after; simpl.
  - destruct (startsWith p "") eqn:E; [|done]. intros _. by apply startsWith_length in E.
  - destruct (startsWith p (String c r)) eqn:E.
    + intros _. by apply startsWith_length in E.
    + destruct (split_at_first p r) as [[b a]|] eqn:Es; [|done].
      intros _. specialize (IH b a eq_refl). simpl. lia.
Qed.

(** An occurrence found in a text is the one found when more text
    follows. *)
Lemma split_at_first_app (p x s before after : string) :
  split_at_first p x = Some (before, after) ->
  split_at_first p (x +:+ s) = Some (before, after +:+ s).
Proof.
  revert before after. induction x as [|c r IH]; intros before after.
  - simpl. destruct (startsWith p "") eqn:E; [|done].
    intros [= <- <-]. destruct p; [|done]. simpl. by destruct s.
  - intros Hs. pose proof (split_at_first_length _ _ _ _ Hs) as Hl.
    simpl in Hs. change (String c r +:+ s) with (String c (r +:+ s)).
    cbn [split_at_first].
    change (String c (r +:+ s)) with (String c r +:+ s).
    rewrite startsWith_app_long by done.
    destruct (startsWith p (String c r)) eqn:E.
    + injection Hs as <- <-. by rewrite drop_app_long.
    + destruct (split_at_first p r) as [[b a]|] eqn:Es; [|done].
      injection Hs as <- <-. by rewrite (IH b a eq_refl).
Qed.

(** A text without the first character of the pattern is passed
    over. *)
Lemma split_at_first_skip (c0 : ascii) (p x t : string) :
  occurs c0 x = false ->
  split_at_first (String c0 p) (x +:+ t)
  = match split_at_first (String c0 p) t with
    | Some (before, after) => Some (x +:+ before, after)
    | None => None
    end.
Proof.
  intros Ho. induction x as [|c r IH].
  - simpl. by destruct (split_at_first (String c0 p) t) as [[b a]|].
  - cbn [occurs] in Ho. apply orb_false_elim in Ho as [Hc Ho].
    change (String c r +:+ t) with (String c (r +:+ t)).
    cbn [split_at_first startsWith].
    assert (Hcc : is_char c0 c = false) by (unfold is_char in *; by rewrite N.eqb_sym).
    rewrite Hcc. cbn [andb]. rewrite (IH Ho).
    by destruct (split_at_first (String c0 p) t) as [[b a]|].
Qed.

Lemma occurs_append (c : ascii) (a b : string) :
  occurs c (a +:+ b) = occurs c a || occurs c b.
Proof. induction a as [|x a IH]; simpl; [done|]. by rewrite IH, orb_assoc. Qed.

Lemma append_assoc3 (a b c : string) : (a +:+ b) +:+ c = a +:+ (b +:+ c).
Proof. induction a as [|x a IH]; simpl; [done|]. by rewrite IH. Qed.

(** The first two replacements on the default template: the snippet,
    with its [$] sequences expanded, takes the place of
    [<CODE_BLOCK_CONTENT>], and [<CODE_BLOCK>] is found before it. *)
Lemma first_two_replacements (snippet : string) :
  replace "<CODE_BLOCK>" "Current file context"
    (replace "<CODE_BLOCK_CONTENT>" snippet default_template)
  = prompt_head
    +:+ substitute "<CODE_BLOCK_CONTENT>" template_before (prompt_tail "<TEST_SUMMARY>") snippet
    +:+ prompt_tail "<TEST_SUMMARY>".
Proof.
  assert (H1 : split_at_first "<CODE_BLOCK_CONTENT>" default_template
               = Some (template_before, prompt_tail "<TEST_SUMMARY>"))
    by (vm_compute; reflexivity).
  unfold replace at 2. rewrite H1.
  assert (H2 : split_at_first "<CODE_BLOCK>" template_before
               = Some ("You are a helpful, precise C# coding assistant. Given the following context and related unit tests, produce only the C# code required that passes the tests." +:+ String "010" (String "010" ("Context:" +:+ String "010" EmptyString)),
                       String "010" EmptyString)) by (vm_compute; reflexivity).
  unfold replace. rewrite (split_at_first_app _ _ _ _ _ H2).
  reflexivity.
Qed.

Lemma substitute_app_plain (matched before after x r : string) :
  occurs dollar x = false ->
  substitute matched before after (x +:+ r) = x +:+ substitute matched before after r.
Proof.
  induction x as [|c x IH]; [done|].
  cbn [occurs]. intros [Hc Hx]%orb_false_elim.
  change (String c x +:+ r) with (String c (x +:+ r)).
  cbn [substitute]. rewrite Hc. by rewrite (IH Hx).
Qed.

(** The third replacement, when no [<] stands before [t]. *)
Lemma third_replacement (x t : string) :
  occurs "<"%char x = false ->
  replace "<TEST_SUMMARY>" testSummary (x +:+ t)
  = match split_at_first "<TEST_SUMMARY>" t with
    | Some (before, after) => x +:+ before +:+ testSummary +:+ after
    | None => x +:+ t
    end.
Proof.
  intros Hx. unfold replace. rewrite (split_at_first_skip _ _ _ _ Hx).
  destruct (split_at_first "<TEST_SUMMARY>" t) as [[b a]|]; [|done].
  rewrite substitute_plain by done. by rewrite append_assoc3.
Qed.

(** X21: with the default template, a snippet that holds neither [$]
    nor [<] is sent as it is, between the heading of the template and
    the summary of the tests. *)
Theorem buildPrompt_verbatim (snippet : string) :
  occurs dollar snippet = false ->
  occurs "<"%char snippet = false ->
  buildPrompt None snippet = prompt_head +:+ snippet +:+ prompt_tail testSummary.
Proof.
  intros Hd Hl. unfold buildPrompt. cbn [default].
  rewrite first_two_replacements, substitute_plain by done.
  rewrite <- append_assoc3, third_replacement.
  - assert (Hs : split_at_first "<TEST_SUMMARY>" (prompt_tail "<TEST_SUMMARY>")
                 = Some (String "010" (String "010" ("Tests Summary:" +:+ String "010" EmptyString)),
                         drop 31 (prompt_tail "<TEST_SUMMARY>")))
      by (vm_compute; reflexivity).
    rewrite Hs. rewrite !append_assoc3. reflexivity.
  - by rewrite occurs_append, Hl.
Qed.

Lemma buildPrompt_verbatim_witness :
  occurs dollar "int x = 1;" = false /\
  occurs "<"%char "int x = 1;" = false /\
  buildPrompt None "int x = 1;" = prompt_head +:+ "int x = 1;" +:+ prompt_tail testSummary.
Proof.
  split; [reflexivity|]. split; [reflexivity|].
  exact (buildPrompt_verbatim "int x = 1;" eq_refl eq_refl).
Defined.

(** X22: a snippet that holds the text [<TEST_SUMMARY>] takes the
    summary of the tests itself: the third replacement acts on the first
    occurrence, which is the one in the snippet, and the placeholder of
    the template stays in the prompt. *)
Theorem buildPrompt_placeholder_in_snippet (x y : string) :
  occurs dollar x = false -> occurs "<"%char x = false ->
  occurs dollar y = false ->
  buildPrompt None (x +:+ "<TEST_SUMMARY>" +:+ y)
  = prompt_head +:+ x +:+ testSummary +:+ y +:+ prompt_tail "<TEST_SUMMARY>".
Proof.
  intros Hdx Hlx Hdy. unfold buildPrompt. cbn [default].
  rewrite first_two_replacements, substitute_plain.
  - rewrite (append_assoc3 x), <- (append_assoc3 prompt_head x), third_replacement.
    + rewrite append_assoc3.
      change (split_at_first "<TEST_SUMMARY>"
                ("<TEST_SUMMARY>" +:+ (y +:+ prompt_tail "<TEST_SUMMARY>")))
        with (Some (EmptyString, y +:+ prompt_tail "<TEST_SUMMARY>")).
      rewrite !append_assoc3. reflexivity.
    + by rewrite occurs_append, Hlx.
  - rewrite !occurs_append, Hdx, Hdy. reflexivity.
Qed.

Lemma buildPrompt_placeholder_in_snippet_witness :
  occurs dollar "// " = false /\ occurs "<"%char "// " = false /\
  occurs dollar " goes here" = false /\
  buildPrompt None "// <TEST_SUMMARY> goes here"
  = prompt_head +:+ "// " +:+ testSummary +:+ " goes here" +:+ prompt_tail "<TEST_SUMMARY>".
Proof.
  split; [reflexivity|]. split; [reflexivity|]. split; [reflexivity|].
  exact (buildPrompt_placeholder_in_snippet "// " " goes here" eq_refl eq_refl eq_refl).
Defined.

(** X23: in a snippet, [$$] reaches the prompt as a single [$]: the
    snippet is the replacement text of the first replacement, where
    [$$] stands for [$]. *)
Theorem buildPrompt_halves_double_dollar (x y : string) :
  occurs dollar x = false -> occurs "<"%char x = false ->
  occurs dollar y = false -> occurs "<"%char y = false ->
  buildPrompt None (x +:+ "$$" +:+ y)
  = prompt_head +:+ x +:+ "$" +:+ y +:+ prompt_tail testSummary.
Proof.
  intros Hdx Hlx Hdy Hly. unfold buildPrompt. cbn [default].
  rewrite first_two_replacements, substitute_app_plain by done.
  change ("$$" +:+ y) with (String dollar (String dollar y)).
  cbn [substitute]. change (is_char dollar dollar) with true. cbv iota.
  rewrite substitute_plain by done.
  rewrite <- (append_assoc3 prompt_head), third_replacement.
  - assert (Hs : split_at_first "<TEST_SUMMARY>" (prompt_tail "<TEST_SUMMARY>")
                 = Some (String "010" (String "010" ("Tests Summary:" +:+ String "010" EmptyString)),
                         drop 31 (prompt_tail "<TEST_SUMMARY>")))
      by (vm_compute; reflexivity).
    rewrite Hs. rewrite !append_assoc3. reflexivity.
  - rewrite !occurs_append, Hlx. cbn [occurs]. by rewrite Hly.
Qed.

Lemma buildPrompt_halves_double_dollar_witness :
  occurs dollar "var s = " = false /\ occurs "<"%char "var s = " = false /\
  occurs dollar "raw;" = false /\ occurs "<"%char "raw;" = false /\
  buildPrompt None "var s = $$raw;"
  = prompt_head +:+ "var s = " +:+ "$" +:+ "raw;" +:+ prompt_tail testSummary.
Proof.
  split; [reflexivity|]. split; [reflexivity|]. split; [reflexivity|].
  split; [reflexivity|].
  exact (buildPrompt_halves_double_dollar "var s = " "raw;" eq_refl eq_refl eq_refl eq_refl).
Defined.

End PromptProofs.
